(** * alx-backend-user-data: the authentication service and the log filter

    A shallow embedding of [0x03-user_authentication_service/auth.py]
    (class [Auth] with its helpers [_hash_password] and [_generate_uuid]),
    of the [User] model of [user.py], and of [filter_datum] of
    [0x00-personal_data/filtered_logger.py].

    Python exceptions are values of [exn]; a method of [Auth] is a function
    from the store to an outcome and the store it leaves behind, so that a
    raised exception keeps whatever was written before it.  The random draws of
    [bcrypt.gensalt()] and [uuid.uuid4()] are explicit arguments.  The
    [bcrypt] primitives themselves are an interface ([Bcrypt]) whose calls
    can raise, as the package does for a password above 72 bytes. *)

From Stdlib Require Import List ZArith String Ascii Bool Lia.
From Stdlib.Strings Require Import Byte.
Import ListNotations.
Local Open Scope Z_scope.
Local Open Scope string_scope.

(** ** Python values and exceptions *)

(** The exceptions the service meets: [ValueError] (raised by [Auth]),
    [sqlalchemy.orm.exc.NoResultFound] (the store's not-found signal) and the
    store's duplicate-email failure. *)
Inductive exn : Type :=
| ValueError
| NoResultFound
| DuplicateEmail.

Inductive result (A : Type) : Type :=
| Ok (a : A)
| Raise (e : exn).
Arguments Ok {A} a.
Arguments Raise {A} e.

(** [str.encode('utf-8')]: a Rocq string already is its sequence of bytes. *)
Definition encode (s : string) : list byte := list_byte_of_string s.

(** ** user.py *)

Record User : Type := mkUser {
  id : Z;
  email : string;
  hashed_password : list byte;
  session_id : option string;
  reset_token : option string
}.

(** ** bcrypt *)

(** [hashpw password salt] and [checkpw password hashed] of the bcrypt
    package, which the service imports.  Either call can raise: from release
    5.0.0 on the package raises [ValueError] for a password above 72 bytes,
    where earlier releases read the first 72 bytes only. *)
Class Bcrypt : Type := {
  hashpw : list byte -> list byte -> result (list byte);
  checkpw : list byte -> list byte -> result bool
}.

(** bcrypt reads at most 72 bytes of a password. *)
Definition short (p : list byte) : Prop := (List.length p <= 72)%nat.

(** What the service relies on, for passwords of at most 72 bytes only:
    hashing returns a hash, and a password verifies against a hash exactly
    when the hash was made from it.  Whatever [hashpw] returns is neither
    empty nor the password itself.  Nothing is assumed of a longer
    password. *)
Class BcryptSpec (B : Bcrypt) : Prop := {
  hashpw_short : forall p salt, short p -> exists h, hashpw p salt = Ok h;
  checkpw_hashpw : forall p q salt h,
    short p -> short q -> hashpw q salt = Ok h ->
    exists b, checkpw p h = Ok b /\ (b = true <-> p = q);
  hashpw_nonempty : forall p salt h, hashpw p salt = Ok h -> h <> [];
  hashpw_not_plain : forall p salt h, hashpw p salt = Ok h -> h <> p
}.

(** ** The store (class [DB]) *)

(** Modelled from the spec: [db.py] (class [DB] with [find_user_by],
    [add_user] and [update_user]) is not among the sources.  The store is the
    user table in insertion order together with the next serial id; a lookup
    returns the first matching row or signals [NoResultFound]. *)
Record DB : Type := mkDB {
  rows : list User;
  next_id : Z
}.

Definition new_db : DB := mkDB [] 1.

(** The keyword argument of [find_user_by]. *)
Inductive Key : Type :=
| by_email (e : string)
| by_id (i : Z)
| by_session_id (s : string)
| by_reset_token (t : string).

Definition opt_string_eqb (o : option string) (s : string) : bool :=
  match o with
  | Some s' => String.eqb s' s
  | None => false
  end.

Definition matches (k : Key) (u : User) : bool :=
  match k with
  | by_email e => String.eqb (email u) e
  | by_id i => Z.eqb (id u) i
  | by_session_id s => opt_string_eqb (session_id u) s
  | by_reset_token t => opt_string_eqb (reset_token u) t
  end.

(** Modelled from the spec: [find_by_email], [find_by_id],
    [find_by_session], [find_by_reset_token] of the store, each returning one
    matching record or signalling NotFound. *)
Definition find_user_by (k : Key) (db : DB) : result User :=
  match find (matches k) (rows db) with
  | Some u => Ok u
  | None => Raise NoResultFound
  end.

(** Modelled from the spec: [add(email, hashed_password) -> User], failing
    with DuplicateEmail if the email is already present. *)
Definition add_user (e : string) (h : list byte) (db : DB)
  : result User * DB :=
  if existsb (matches (by_email e)) (rows db)
  then (Raise DuplicateEmail, db)
  else
    let user := mkUser (next_id db) e h None None in
    (Ok user, mkDB (rows db ++ [user]) (next_id db + 1)).

(** The keyword arguments of [update_user]: the mutable fields, each either
    left alone ([None]) or given a new value. *)
Record Fields : Type := mkFields {
  set_hashed_password : option (list byte);
  set_session_id : option (option string);
  set_reset_token : option (option string)
}.

Definition or_keep {A : Type} (new : option A) (old : A) : A :=
  match new with
  | Some a => a
  | None => old
  end.

Definition apply_fields (f : Fields) (u : User) : User :=
  mkUser (id u) (email u)
         (or_keep (set_hashed_password f) (hashed_password u))
         (or_keep (set_session_id f) (session_id u))
         (or_keep (set_reset_token f) (reset_token u)).

Fixpoint update_row (i : Z) (f : Fields) (l : list User) : option (list User) :=
  match l with
  | [] => None
  | u :: l' =>
      if Z.eqb (id u) i then Some (apply_fields f u :: l')
      else option_map (cons u) (update_row i f l')
  end.

(** Modelled from the spec: [update(id, **fields)], a partial update of the
    mutable fields applied as a whole, failing with NotFound if the id is
    unknown. *)
Definition update_user (i : Z) (f : Fields) (db : DB) : result unit * DB :=
  match update_row i f (rows db) with
  | Some l => (Ok tt, mkDB l (next_id db))
  | None => (Raise NoResultFound, db)
  end.

(** ** Well-formed stores *)

Definition ids (db : DB) : list Z := map id (rows db).
Definition emails (db : DB) : list string := map email (rows db).

Fixpoint present {A : Type} (l : list (option A)) : list A :=
  match l with
  | [] => []
  | Some a :: l' => a :: present l'
  | None :: l' => present l'
  end.

Definition session_ids (db : DB) : list string := present (map session_id (rows db)).
Definition reset_tokens (db : DB) : list string := present (map reset_token (rows db)).

(** Ids are serial and distinct, and emails are distinct. *)
Record wf (db : DB) : Prop := {
  wf_ids : NoDup (ids db);
  wf_next : forall i, In i (ids db) -> i < next_id db;
  wf_emails : NoDup (emails db)
}.

(** The store invariant of the data model: session tokens and reset tokens,
    when present, are unique across the store. *)
Record tokens_unique (db : DB) : Prop := {
  tu_sessions : NoDup (session_ids db);
  tu_resets : NoDup (reset_tokens db)
}.

(** ** auth.py *)

Section Auth.
Context {B : Bcrypt}.

(** [_hash_password]: [hashpw(password.encode('utf-8'), gensalt())]; the
    salt drawn by [gensalt()] is the second argument, and what [hashpw]
    raises is raised. *)
Definition _hash_password (password : string) (salt : list byte)
  : result (list byte) :=
  hashpw (encode password) salt.

(** [_generate_uuid]: [str(uuid4())]; the draw is the argument. *)
Definition _generate_uuid (uuid4 : string) : string := uuid4.

(** [Auth.register_user]: the [except NoResultFound] branch hashes and adds,
    the [else] branch raises [ValueError].  An exception of [_hash_password]
    is raised inside the handler, before anything is added. *)
Definition register_user (email password : string) (salt : list byte)
    (db : DB) : result User * DB :=
  match find_user_by (by_email email) db with
  | Raise NoResultFound =>
      match _hash_password password salt with
      | Ok hashed_password => add_user email hashed_password db
      | Raise e => (Raise e, db)
      end
  | Raise e => (Raise e, db)
  | Ok _ => (Raise ValueError, db)
  end.

(** [Auth.valid_login]: lookup and [checkpw] both sit inside the [try], whose
    handler catches [NoResultFound] only. *)
Definition valid_login (email password : string) (db : DB) : result bool :=
  match find_user_by (by_email email) db with
  | Ok user =>
      match checkpw (encode password) (hashed_password user) with
      | Raise NoResultFound => Ok false
      | r => r
      end
  | Raise NoResultFound => Ok false
  | Raise e => Raise e
  end.

(** [Auth.create_session]: the update is outside the [try], so a failure of
    [update_user] propagates. *)
Definition create_session (email : string) (uuid4 : string) (db : DB)
  : result (option string) * DB :=
  match find_user_by (by_email email) db with
  | Raise NoResultFound => (Ok None, db)
  | Raise e => (Raise e, db)
  | Ok found_user =>
      let session_id := _generate_uuid uuid4 in
      match update_user (id found_user)
              (mkFields None (Some (Some session_id)) None) db with
      | (Ok _, db') => (Ok (Some session_id), db')
      | (Raise e, db') => (Raise e, db')
      end
  end.

(** [Auth.get_user_from_session_id]: only [None] is tested before the
    lookup. *)
Definition get_user_from_session_id (session_id : option string) (db : DB)
  : result (option User) :=
  match session_id with
  | None => Ok None
  | Some sid =>
      match find_user_by (by_session_id sid) db with
      | Ok found_user => Ok (Some found_user)
      | Raise NoResultFound => Ok None
      | Raise e => Raise e
      end
  end.

(** [Auth.destroy_session]: lookup and update both sit inside the [try]. *)
Definition destroy_session (user_id : option Z) (db : DB) : result unit * DB :=
  match user_id with
  | None => (Ok tt, db)
  | Some uid =>
      match find_user_by (by_id uid) db with
      | Ok found_user =>
          match update_user (id found_user) (mkFields None (Some None) None) db with
          | (Raise NoResultFound, db') => (Ok tt, db')
          | r => r
          end
      | Raise NoResultFound => (Ok tt, db)
      | Raise e => (Raise e, db)
      end
  end.

(** [Auth.get_reset_password_token]. *)
Definition get_reset_password_token (email : string) (uuid4 : string) (db : DB)
  : result string * DB :=
  match find_user_by (by_email email) db with
  | Raise NoResultFound => (Raise ValueError, db)
  | Raise e => (Raise e, db)
  | Ok user =>
      let reset_token := _generate_uuid uuid4 in
      match update_user (id user) (mkFields None None (Some (Some reset_token))) db with
      | (Ok _, db') => (Ok reset_token, db')
      | (Raise e, db') => (Raise e, db')
      end
  end.

(** [Auth.update_password]: returns at once when an argument [is None];
    otherwise looks the token up, hashes, and writes the hash and
    [reset_token=None] in one [update_user] call.  An exception of
    [_hash_password] leaves the [try] (it is no [NoResultFound]) before
    anything is written. *)
Definition update_password (reset_token : option string)
    (password : option string) (salt : list byte) (db : DB)
  : result unit * DB :=
  match reset_token, password with
  | None, _ | _, None => (Ok tt, db)
  | Some token, Some pw =>
      match find_user_by (by_reset_token token) db with
      | Raise NoResultFound => (Raise ValueError, db)
      | Raise e => (Raise e, db)
      | Ok user =>
          match _hash_password pw salt with
          | Ok hashed_password =>
              update_user (id user)
                (mkFields (Some hashed_password) None (Some None)) db
          | Raise e => (Raise e, db)
          end
      end
  end.

(** What [update_password] writes: the new hash, and no reset token. *)
Definition reset_fields (hashed_password : list byte) : Fields :=
  mkFields (Some hashed_password) None (Some None).

(** ** Histories of calls *)

(** One call of the service, with its random draw where it has one. *)
Inductive Call : Type :=
| call_register_user (email password : string) (salt : list byte)
| call_valid_login (email password : string)
| call_create_session (email : string) (uuid4 : string)
| call_get_user_from_session_id (session_id : option string)
| call_destroy_session (user_id : option Z)
| call_get_reset_password_token (email : string) (uuid4 : string)
| call_update_password (reset_token password : option string) (salt : list byte).

(** The store a call leaves behind. *)
Definition exec (c : Call) (db : DB) : DB :=
  match c with
  | call_register_user e p s => snd (register_user e p s db)
  | call_valid_login _ _ => db
  | call_create_session e u => snd (create_session e u db)
  | call_get_user_from_session_id _ => db
  | call_destroy_session i => snd (destroy_session i db)
  | call_get_reset_password_token e u => snd (get_reset_password_token e u db)
  | call_update_password t p s => snd (update_password t p s db)
  end.

Definition run (cs : list Call) (db : DB) : DB :=
  fold_left (fun d c => exec c d) cs db.

(** The plaintext last supplied for an email, a ghost of the history: set by
    a successful [register_user] and by a successful [update_password] (for
    the user the token belongs to). *)
Definition Plain : Type := string -> option string.

Definition set_plain (g : Plain) (e : string) (p : string) : Plain :=
  fun e' => if String.eqb e' e then Some p else g e'.

Definition track (c : Call) (db : DB) (g : Plain) : Plain :=
  match c with
  | call_register_user e p s =>
      match fst (register_user e p s db) with
      | Ok _ => set_plain g e p
      | Raise _ => g
      end
  | call_update_password (Some t) (Some p) s =>
      match fst (update_password (Some t) (Some p) s db),
            find_user_by (by_reset_token t) db with
      | Ok _, Ok u => set_plain g (email u) p
      | _, _ => g
      end
  | _ => g
  end.

(** The stores the service can reach from the empty one, each with the
    plaintexts of its history. *)
Inductive reachable : DB -> Plain -> Prop :=
| reach_new : reachable new_db (fun _ => None)
| reach_call c db g :
    reachable db g -> reachable (exec c db) (track c db g).

(** Every stored hash is the hash of the plaintext last supplied for its
    user. *)
Definition hashes_tracked (db : DB) (g : Plain) : Prop :=
  forall u, In u (rows db) ->
            exists p salt, g (email u) = Some p
                           /\ _hash_password p salt = Ok (hashed_password u).

(** The fields a call writes when it updates a user. *)
Definition fields_of (c : Call) : option Fields :=
  match c with
  | call_create_session _ uuid4 => Some (mkFields None (Some (Some uuid4)) None)
  | call_destroy_session _ => Some (mkFields None (Some None) None)
  | call_get_reset_password_token _ uuid4 =>
      Some (mkFields None None (Some (Some uuid4)))
  | call_update_password _ (Some p) salt =>
      match _hash_password p salt with
      | Ok h => Some (reset_fields h)
      | Raise _ => None
      end
  | _ => None
  end.

(** What a call can do to the store: nothing, one [update_user] on the id of
    a stored user, or the insertion of a new user. *)
Inductive effect (db : DB) : Call -> DB -> Prop :=
| effect_none c : effect db c db
| effect_update c u f :
    In u (rows db) ->
    fields_of c = Some f ->
    effect db c (snd (update_user (id u) f db))
| effect_add e p salt h :
    ~ In e (emails db) ->
    _hash_password p salt = Ok h ->
    effect db (call_register_user e p salt)
           (mkDB (rows db ++ [mkUser (next_id db) e h None None])
                 (next_id db + 1)).

(** The draw of a call is a token no user holds yet. *)
Definition fresh (c : Call) (db : DB) : Prop :=
  match c with
  | call_create_session _ uuid4 =>
      ~ In uuid4 (session_ids db)
  | call_get_reset_password_token _ uuid4 =>
      ~ In uuid4 (reset_tokens db)
  | _ => True
  end.

(** [uuid4] draws are not the empty string: [str(uuid4())] has 36
    characters. *)
Definition nonempty_draw (c : Call) : Prop :=
  match c with
  | call_create_session _ uuid4 => uuid4 <> ""
  | _ => True
  end.

(** Every draw along a history is fresh at the moment it is made. *)
Fixpoint fresh_run (cs : list Call) (db : DB) : Prop :=
  match cs with
  | [] => True
  | c :: cs' => fresh c db /\ fresh_run cs' (exec c db)
  end.

End Auth.

(** ** app.py *)

(** The Flask routes over the service.  A request carries its form data and
    its cookies; a response is a JSON body with a status and possibly a
    cookie, an [abort], a redirect, or the failure of an uncaught exception.
    The store of the global [AUTH] is threaded through. *)
Module App.

Record Request : Type := mkRequest {
  form : list (string * string);
  cookies : list (string * string)
}.

(** [request.form[key]] and [request.form.get(key)], [request.cookies.get]:
    the first value under the key, if any. *)
Definition get (key : string) (d : list (string * string)) : option string :=
  option_map snd (find (fun kv => String.eqb (fst kv) key) d).

Inductive Response : Type :=
| jsonify (status : Z) (body : list (string * string))
          (set_cookie : option (string * option string))
| abort (status : Z)
| redirect (location : string)
| uncaught (e : exn).

Section Routes.
Context {B : Bcrypt}.

(** [GET /]. *)
Definition hello_world : Response :=
  jsonify 200 [("message", "Bienvenue")] None.

(** [POST /users]. *)
Definition register_user (request : Request) (salt : list byte) (db : DB)
  : Response * DB :=
  match get "email" (form request), get "password" (form request) with
  | Some email, Some password =>
      match register_user email password salt db with
      | (Ok _, db') =>
          (jsonify 200 [("email", email); ("message", "user created")] None, db')
      | (Raise ValueError, db') =>
          (jsonify 400 [("message", "email already registered")] None, db')
      | (Raise e, db') => (uncaught e, db')
      end
  | _, _ => (abort 400, db)
  end.

(** [not value] for an optional string: [None] and the empty string. *)
Definition falsy (value : option string) : bool :=
  match value with
  | Some s => String.eqb s ""
  | None => true
  end.

(** [POST /sessions]. *)
Definition login (request : Request) (uuid4 : string) (db : DB)
  : Response * DB :=
  let email := get "email" (form request) in
  let password := get "password" (form request) in
  if falsy email || falsy password then
    (jsonify 400 [("message", "email and password required")] None, db)
  else
    match email, password with
    | Some email, Some password =>
        match valid_login email password db with
        | Ok true =>
            match create_session email uuid4 db with
            | (Ok session_id, db') =>
                (jsonify 200 [("email", email); ("message", "logged in")]
                         (Some ("session_id", session_id)), db')
            | (Raise e, db') => (uncaught e, db')
            end
        | Ok false => (abort 401, db)
        | Raise e => (uncaught e, db)
        end
    | _, _ =>
        (jsonify 400 [("message", "email and password required")] None, db)
    end.

(** [DELETE /sessions]. *)
Definition log_out (request : Request) (db : DB) : Response * DB :=
  let session_id := get "session_id" (cookies request) in
  match get_user_from_session_id session_id db with
  | Ok (Some user) =>
      match destroy_session (Some (id user)) db with
      | (Ok _, db') => (redirect "/", db')
      | (Raise e, db') => (uncaught e, db')
      end
  | Ok None => (abort 403, db)
  | Raise e => (uncaught e, db)
  end.

(** [GET /profile]. *)
Definition profile (request : Request) (db : DB) : Response :=
  let session_id := get "session_id" (cookies request) in
  match get_user_from_session_id session_id db with
  | Ok (Some user) => jsonify 200 [("email", email user)] None
  | Ok None => abort 403
  | Raise e => uncaught e
  end.

(** [POST /reset_password]. *)
Definition get_reset_password_token (request : Request) (uuid4 : string)
    (db : DB) : Response * DB :=
  match get "email" (form request) with
  | Some email =>
      match get_reset_password_token email uuid4 db with
      | (Ok reset_token, db') =>
          (jsonify 200 [("email", email); ("reset_token", reset_token)] None,
           db')
      | (Raise ValueError, db') => (abort 403, db')
      | (Raise e, db') => (uncaught e, db')
      end
  | None => (abort 400, db)
  end.

(** [PUT /reset_password]. *)
Definition update_password (request : Request) (salt : list byte) (db : DB)
  : Response * DB :=
  match get "email" (form request), get "reset_token" (form request),
        get "new_password" (form request) with
  | Some email, Some reset_token, Some new_password =>
      match update_password (Some reset_token) (Some new_password) salt db with
      | (Ok _, db') =>
          (jsonify 200 [("email", email); ("message", "Password updated")] None,
           db')
      | (Raise ValueError, db') => (abort 403, db')
      | (Raise e, db') => (uncaught e, db')
      end
  | _, _, _ => (abort 400, db)
  end.

End Routes.

(** The status a client sees. *)
Definition status_code (r : Response) : Z :=
  match r with
  | jsonify status _ _ => status
  | abort status => status
  | redirect _ => 302
  | uncaught _ => 500
  end.

End App.

(** ** main.py *)

(** The end-to-end script: each function sends one request and asserts on
    the reply.  A failed [assert] ends the script ([None]); the server's
    store is threaded through. *)
Module Main.

(** What [requests] hands back: the final status, the JSON body if there is
    one, the cookie set, and the statuses of the redirects it followed. *)
Record Reply : Type := mkReply {
  status_code : Z;
  json : option (list (string * string));
  cookie : option (string * string);
  history : list Z
}.

(** Comparing two JSON objects as dictionaries. *)
Definition dict_eqb (a b : list (string * string)) : bool :=
  let covers x y :=
    forallb (fun kv => match App.get (fst kv) y with
                       | Some v => String.eqb v (snd kv)
                       | None => false
                       end) x in
  covers a b && covers b a.

Definition json_is (r : Reply) (expected : list (string * string)) : bool :=
  match json r with
  | Some body => dict_eqb body expected
  | None => false
  end.

Definition assert (b : bool) : option unit := if b then Some tt else None.

Definition EMAIL : string := "guillaume@holberton.io".
Definition PASSWD : string := "b4l0u".
Definition NEW_PASSWD : string := "t4rt1fl3tt3".

Section Script.
Context {B : Bcrypt}.

(** The reply to a response; a redirect to [/] is followed to the welcome
    route. *)
Definition reply (r : App.Response) : Reply :=
  match r with
  | App.jsonify status body set_cookie =>
      mkReply status (Some body)
              match set_cookie with
              | Some (name, Some value) => Some (name, value)
              | _ => None
              end []
  | App.abort status => mkReply status None None []
  | App.redirect location =>
      if String.eqb location "/" then
        match App.hello_world with
        | App.jsonify status body _ => mkReply status (Some body) None [302]
        | _ => mkReply 500 None None [302]
        end
      else mkReply 404 None None [302]
  | App.uncaught _ => mkReply 500 None None []
  end.

Definition session_cookie (session_id : option string)
  : list (string * string) :=
  match session_id with
  | Some s => [("session_id", s)]
  | None => []
  end.

Definition register_user (email password : string) (salt : list byte)
    (db : DB) : option (unit * DB) :=
  let (response, db') :=
    App.register_user
      (App.mkRequest [("email", email); ("password", password)] []) salt db in
  let r := reply response in
  match assert (Z.eqb (status_code r) 200),
        assert (json_is r [("email", email); ("message", "user created")]) with
  | Some _, Some _ => Some (tt, db')
  | _, _ => None
  end.

Definition log_in_wrong_password (email password : string) (uuid4 : string)
    (db : DB) : option (unit * DB) :=
  let (response, db') :=
    App.login (App.mkRequest [("email", email); ("password", password)] [])
              uuid4 db in
  match assert (Z.eqb (status_code (reply response)) 401) with
  | Some _ => Some (tt, db')
  | None => None
  end.

Definition log_in (email password : string) (uuid4 : string) (db : DB)
  : option (option string * DB) :=
  let (response, db') :=
    App.login (App.mkRequest [("email", email); ("password", password)] [])
              uuid4 db in
  let r := reply response in
  match assert (Z.eqb (status_code r) 200),
        assert (json_is r [("email", email); ("message", "logged in")]) with
  | Some _, Some _ =>
      Some (match cookie r with
            | Some (name, value) =>
                if String.eqb name "session_id" then Some value else None
            | None => None
            end, db')
  | _, _ => None
  end.

Definition profile_unlogged (db : DB) : option (unit * DB) :=
  let r := reply (App.profile (App.mkRequest [] []) db) in
  match assert (Z.eqb (status_code r) 403) with
  | Some _ => Some (tt, db)
  | None => None
  end.

Definition profile_logged (session_id : option string) (db : DB)
  : option (unit * DB) :=
  let r := reply (App.profile (App.mkRequest [] (session_cookie session_id)) db) in
  match assert (Z.eqb (status_code r) 200),
        assert (json_is r [("email", "guillaume@holberton.io")]) with
  | Some _, Some _ => Some (tt, db)
  | _, _ => None
  end.

Definition log_out (session_id : option string) (db : DB)
  : option (unit * DB) :=
  let (response, db') :=
    App.log_out (App.mkRequest [] (session_cookie session_id)) db in
  match assert (forallb (fun s => Z.eqb s 302) (history (reply response))) with
  | Some _ => Some (tt, db')
  | None => None
  end.

Definition reset_password_token (email : string) (uuid4 : string) (db : DB)
  : option (option string * DB) :=
  let (response, db') :=
    App.get_reset_password_token (App.mkRequest [("email", email)] []) uuid4 db in
  let r := reply response in
  match assert (Z.eqb (status_code r) 200) with
  | Some _ =>
      Some (match json r with
            | Some body => App.get "reset_token" body
            | None => None
            end, db')
  | None => None
  end.

Definition update_password (email : string) (reset_token : option string)
    (new_password : string) (salt : list byte) (db : DB)
  : option (unit * DB) :=
  let data :=
    ("email", email)
    :: match reset_token with
       | Some token => [("reset_token", token)]
       | None => []
       end
    ++ [("new_password", new_password)] in
  let (response, db') := App.update_password (App.mkRequest data []) salt db in
  let r := reply response in
  match assert (Z.eqb (status_code r) 200),
        assert (json_is r [("email", email); ("message", "Password updated")])
  with
  | Some _, Some _ => Some (tt, db')
  | _, _ => None
  end.

(** The draws of one run of the script, in the order they are made. *)
Record Draws : Type := mkDraws {
  salt_register : list byte;
  uuid_wrong : string;
  uuid_login : string;
  uuid_reset : string;
  salt_update : list byte;
  uuid_last : string
}.

Definition bind {A C : Type} (x : option (A * DB)) (k : A -> DB -> option C)
  : option C :=
  match x with
  | Some (a, db) => k a db
  | None => None
  end.

(** The [__main__] block. *)
Definition main (d : Draws) (db : DB) : option (unit * DB) :=
  bind (register_user EMAIL PASSWD (salt_register d) db) (fun _ db =>
  bind (log_in_wrong_password EMAIL NEW_PASSWD (uuid_wrong d) db) (fun _ db =>
  bind (profile_unlogged db) (fun _ db =>
  bind (log_in EMAIL PASSWD (uuid_login d) db) (fun session_id db =>
  bind (profile_logged session_id db) (fun _ db =>
  bind (log_out session_id db) (fun _ db =>
  bind (reset_password_token EMAIL (uuid_reset d) db) (fun reset_token db =>
  bind (update_password EMAIL reset_token NEW_PASSWD (salt_update d) db)
       (fun _ db =>
  bind (log_in EMAIL NEW_PASSWD (uuid_last d) db) (fun _ db =>
  Some (tt, db)))))))))).

End Script.

End Main.

(** ** filtered_logger.py *)

(** *** The fragment of Python's [re] that [filter_datum] exercises

    [filter_datum] pastes the field name and the separator into the pattern
    unescaped, so the pattern is parsed here as [re] parses it.  The fragment:
    ordinary characters, [.], the alternation bar, and the repetitions [*],
    [+], [?] with their lazy forms.  Groups, classes, anchors, counted
    repetition and escapes are outside it, as is a pattern [re] rejects
    (nothing to repeat, multiple repeat): parsing then gives [None]. *)
Module Re.

Local Open Scope char_scope.
Local Open Scope nat_scope.

Definition newline : ascii := "010".

Inductive atom : Type :=
| Lit (c : ascii)
| Dot.

(** A repetition carries its greediness ([true]) or laziness ([false]). *)
Inductive quant : Type :=
| One
| Star (greedy : bool)
| Plus (greedy : bool)
| Opt (greedy : bool).

Definition item : Type := atom * quant.
Definition branch : Type := list item.
(** The alternatives of a pattern, in order. *)
Definition regex : Type := list branch.

(** The characters [re] gives a meaning to. *)
Definition is_special (c : ascii) : bool :=
  existsb (Ascii.eqb c)
    ["."; "^"; "$"; "*"; "+"; "?"; "{"; "}"; "["; "]"; "\"; "|"; "("; ")"].

Definition is_repeat (c : ascii) : bool :=
  existsb (Ascii.eqb c) ["*"; "+"; "?"].

Definition atom_of (c : ascii) : option atom :=
  if Ascii.eqb c "." then Some Dot
  else if is_special c then None
  else Some (Lit c).

Definition quant_of (c : ascii) (greedy : bool) : quant :=
  if Ascii.eqb c "*" then Star greedy
  else if Ascii.eqb c "+" then Plus greedy
  else Opt greedy.

Definition push (i : item) (r : option regex) : option regex :=
  match r with
  | Some (b :: bs) => Some ((i :: b) :: bs)
  | _ => None
  end.

Fixpoint parse (p : list ascii) : option regex :=
  match p with
  | [] => Some [[]]
  | c :: p1 =>
      if Ascii.eqb c "|" then option_map (cons []) (parse p1)
      else
        match atom_of c with
        | None => None
        | Some a =>
            match p1 with
            | q :: p2 =>
                if is_repeat q then
                  match p2 with
                  | l :: p3 =>
                      if Ascii.eqb l "?" then push (a, quant_of q false) (parse p3)
                      else if Ascii.eqb l "+" then None
                      else push (a, quant_of q true) (parse p2)
                  | [] => push (a, quant_of q true) (parse p2)
                  end
                else push (a, One) (parse p1)
            | [] => push (a, One) (parse p1)
            end
        end
  end.

(** [.] matches any character but a newline (no DOTALL flag is given). *)
Definition atom_matches (a : atom) (c : ascii) : bool :=
  match a with
  | Lit c' => Ascii.eqb c c'
  | Dot => negb (Ascii.eqb c newline)
  end.

Definition orelse {A : Type} (x y : option A) : option A :=
  match x with
  | Some _ => x
  | None => y
  end.

Section Matcher.
Variable R : Type.

(** Backtracking in [re]'s order: the continuation [next] is the rest of the
    pattern; a greedy repetition tries one more character first, a lazy one
    tries the rest of the pattern first. *)
Fixpoint star (a : atom) (greedy : bool) (next : list ascii -> option R)
    (s : list ascii) : option R :=
  let more :=
    match s with
    | c :: s' => if atom_matches a c then star a greedy next s' else None
    | [] => None
    end in
  if greedy then orelse more (next s) else orelse (next s) more.

Definition once (a : atom) (next : list ascii -> option R) (s : list ascii)
  : option R :=
  match s with
  | c :: s' => if atom_matches a c then next s' else None
  | [] => None
  end.

Fixpoint match_items (b : branch) (k : list ascii -> option R) (s : list ascii)
  : option R :=
  match b with
  | [] => k s
  | (a, q) :: b' =>
      let next := match_items b' k in
      match q with
      | One => once a next s
      | Star g => star a g next s
      | Plus g => once a (star a g next) s
      | Opt g => if g then orelse (once a next s) (next s)
                 else orelse (next s) (once a next s)
      end
  end.

Fixpoint match_regex (r : regex) (k : list ascii -> option R) (s : list ascii)
  : option R :=
  match r with
  | [] => None
  | b :: r' => orelse (match_items b k s) (match_regex r' k s)
  end.

End Matcher.

(** A match attempt at the head of [s]; it yields what is left of [s] after
    the match.  With [must_advance] an empty match is refused and the matcher
    backtracks, as [re] does right after an empty match. *)
Definition match_at (r : regex) (must_advance : bool) (s : list ascii)
  : option (list ascii) :=
  match_regex _ r
    (fun rest =>
       if must_advance && Nat.eqb (List.length rest) (List.length s) then None
       else Some rest) s.

(** The replacement template: a backslash starts an escape.  The escapes
    for newline, tab and the backslash itself are expanded; the others
    (group references, and those [re] rejects) are outside the fragment. *)
Fixpoint expand_template (t : list ascii) : option (list ascii) :=
  match t with
  | [] => Some []
  | c :: t1 =>
      if Ascii.eqb c "\" then
        match t1 with
        | e :: t2 =>
            if Ascii.eqb e "n" then option_map (cons newline) (expand_template t2)
            else if Ascii.eqb e "t" then option_map (cons "009") (expand_template t2)
            else if Ascii.eqb e "\" then option_map (cons "\") (expand_template t2)
            else None
        | [] => None
        end
      else option_map (cons c) (expand_template t1)
  end.

(** The substitution loop: at each position try a match; on success emit
    the replacement and go on after the match, otherwise copy one character.
    Every second round at least consumes a character, so [2 * length s + 2]
    rounds always suffice. *)
Fixpoint sub_loop (r : regex) (repl : list ascii) (fuel : nat)
    (must_advance : bool) (s : list ascii) : option (list ascii) :=
  match fuel with
  | O => None
  | S fuel' =>
      match match_at r must_advance s with
      | Some rest =>
          option_map (app repl)
            (sub_loop r repl fuel' (Nat.eqb (List.length rest) (List.length s)) rest)
      | None =>
          match s with
          | [] => Some []
          | c :: s' => option_map (cons c) (sub_loop r repl fuel' false s')
          end
      end
  end.

(** [re.sub(pattern, repl, string)]. *)
Definition sub (pattern repl s : string) : option string :=
  match parse (list_ascii_of_string pattern),
        expand_template (list_ascii_of_string repl) with
  | Some r, Some t =>
      let l := list_ascii_of_string s in
      option_map string_of_list_ascii (sub_loop r t (2 * List.length l + 2) false l)
  | _, _ => None
  end.

End Re.

(** [filter_datum]: one [re.sub] per field, each on the result of the one
    before. *)
Fixpoint filter_datum (fields : list string) (redaction message separator : string)
  : option string :=
  match fields with
  | [] => Some message
  | field :: fields' =>
      let pattern := field ++ "=.*?" ++ separator in
      let replacement := field ++ "=" ++ redaction ++ separator in
      match Re.sub pattern replacement message with
      | Some message' => filter_datum fields' redaction message' separator
      | None => None
      end
  end.

(** *** What the redaction is meant to be

    The words of the interface: each occurrence of [field=value<delim>] is
    rewritten to [field=marker<delim>] and the rest of the line is kept.  The
    value of an occurrence is the shortest text up to a delimiter, and it
    stays on one line. *)
Module Redaction.

Local Open Scope char_scope.
Local Open Scope nat_scope.
Local Open Scope list_scope.

Section Field.
Variables field marker delim : list ascii.

(** [s] starts with [field=value<delim>] and goes on with [rest]. *)
Definition occurrence (value rest s : list ascii) : Prop :=
  s = field ++ "=" :: value ++ delim ++ rest /\ ~ In Re.newline value.

Inductive redacted : list ascii -> list ascii -> Prop :=
| redacted_end : redacted [] []
| redacted_hit s value rest out :
    occurrence value rest s ->
    (forall value' rest', occurrence value' rest' s ->
                          List.length value <= List.length value') ->
    redacted rest out ->
    redacted s (field ++ "=" :: marker ++ delim ++ out)
| redacted_skip c s out :
    (forall value rest, ~ occurrence value rest (c :: s)) ->
    redacted s out ->
    redacted (c :: s) (c :: out).

End Field.

(** One field after the other, each on the result of the one before. *)
Inductive redacted_all (marker delim : list ascii)
  : list (list ascii) -> list ascii -> list ascii -> Prop :=
| redacted_none s : redacted_all marker delim [] s s
| redacted_next field fields s s1 out :
    redacted field marker delim s s1 ->
    redacted_all marker delim fields s1 out ->
    redacted_all marker delim (field :: fields) s out.

(** A text with no character that [re] reads as syntax. *)
Definition plain (s : list ascii) : Prop :=
  forallb (fun c => negb (Re.is_special c)) s = true.

(** The pattern of a text taken literally. *)
Definition lits (l : list ascii) : Re.branch :=
  map (fun c => (Re.Lit c, Re.One)) l.

(** What [re] makes of [field=.*?delim] for a plain field and delimiter. *)
Definition field_regex (field delim : list ascii) : Re.regex :=
  [lits (field ++ ["="]) ++ (Re.Dot, Re.Star false) :: lits delim].

End Redaction.

Definition chars (s : string) : list ascii := list_ascii_of_string s.

(** *** Log lines of key=value pairs

    The lines [main] of [filtered_logger.py] logs: each pair is written
    [key=value] and closed by the separator. *)
Module Line.

Definition pair_text (sep : string) (kv : string * string) : string :=
  fst kv ++ "=" ++ snd kv ++ sep.

Definition line (sep : string) (kvs : list (string * string)) : string :=
  fold_right (fun kv rest => pair_text sep kv ++ rest) "" kvs.

(** [k] ends with [f]. *)
Fixpoint ends_with (k f : string) : bool :=
  String.eqb k f
  || match k with
     | String _ k' => ends_with k' f
     | EmptyString => false
     end.

(** The pair with its value replaced by the marker when the key ends with
    one of the fields. *)
Definition redact_pair (fields : list string) (marker : string)
    (kv : string * string) : string * string :=
  (fst kv, if existsb (ends_with (fst kv)) fields then marker else snd kv).

(** A text with no [=], no newline and no character of the separator. *)
Definition tidy (sep s : string) : Prop :=
  ~ In "="%char (chars s)
  /\ ~ In Re.newline (chars s)
  /\ forall c, In c (chars s) -> ~ In c (chars sep).

(** What follows a pair: nothing, or a key and its [=]. *)
Definition line_like (tl : list ascii) : Prop :=
  tl = [] \/ exists k x, ~ In "="%char k /\ tl = (k ++ "="%char :: x)%list.

End Line.

(** *** The formatter and its configuration *)

Definition PII_FIELDS : list string :=
  ["name"; "email"; "phone"; "ssn"; "password"].

(** [RedactingFormatter]: [format] filters what [logging.Formatter.format]
    made of the record, which is taken as given here. *)
Module RedactingFormatter.

Definition REDACTION : string := "***".
Definition SEPARATOR : string := ";".

Definition format (fields : list string) (formatted_message : string)
  : option string :=
  let redacted_message :=
    filter_datum fields REDACTION formatted_message SEPARATOR in
  redacted_message.

End RedactingFormatter.

(** ** Sample data *)

(** A stand-in for bcrypt from release 5.0.0 on, which meets [BcryptSpec]:
    a password above 72 bytes is refused with [ValueError] by both calls; the
    hash of a shorter one is a marker byte, one byte of the salt, and the
    password. *)
Definition toy_hashpw (p salt : list byte) : list byte :=
  x24 :: hd x00 salt :: p.

Definition toy_checkpw (p h : list byte) : bool :=
  match h with
  | x24 :: _ :: q => if list_eq_dec byte_eq_dec p q then true else false
  | _ => false
  end.

Definition too_long (p : list byte) : bool := Nat.ltb 72 (List.length p).

Definition toy_bcrypt : Bcrypt :=
  {| hashpw := fun p salt =>
       if too_long p then Raise ValueError else Ok (toy_hashpw p salt);
     checkpw := fun p h =>
       if too_long p then Raise ValueError else Ok (toy_checkpw p h) |}.

(** A stand-in for bcrypt before release 5.0.0, which meets [BcryptSpec] as
    well: no password is refused, and only its first 72 bytes are read.  The
    hash is those bytes, each with its lowest bit flipped, and one byte of
    the salt. *)
Definition flip (b : byte) : byte :=
  match Byte.of_N (N.lxor (Byte.to_N b) 1) with
  | Some b' => b'
  | None => b
  end.

Definition old_hashpw (p salt : list byte) : list byte :=
  (map flip (firstn 72 p) ++ [hd x00 salt])%list.

Definition old_checkpw (p h : list byte) : bool :=
  if list_eq_dec byte_eq_dec (removelast h) (map flip (firstn 72 p))
  then true else false.

Definition old_bcrypt : Bcrypt :=
  {| hashpw := fun p salt => Ok (old_hashpw p salt);
     checkpw := fun p h => Ok (old_checkpw p h) |}.

(** Two passwords of 73 bytes that share their first 72. *)
Definition pw_72 : string := string_of_list_ascii (repeat "a"%char 72).
Definition pw_73b : string := pw_72 ++ "b".
Definition pw_73c : string := pw_72 ++ "c".

(** The store after [pw_73b] was registered for Bob under the earlier
    bcrypt, and the plaintexts of that history. *)
Definition c_bob_73 : Call := call_register_user "bob@x.io" pw_73b [x01].
Definition db_73 : DB := @exec old_bcrypt c_bob_73 new_db.
Definition g_73 : Plain := @track old_bcrypt c_bob_73 new_db (fun _ => None).

Definition bob : User :=
  mkUser 1 "bob@x.io" (toy_hashpw (encode "pw1") [x01]) None None.

(** Bob holding an empty session id and the reset token ["R"]. *)
Definition bob_odd : User :=
  mkUser 1 "bob@x.io" (toy_hashpw (encode "pw1") [x01]) (Some "") (Some "R").

(** A log line whose name runs over two lines. *)
Definition two_lines : string := "name=bo" ++ String Re.newline "b;age=3;".

Definition db_bob : DB := mkDB [bob] 2.
Definition db_bob_odd : DB := mkDB [bob_odd] 2.

(** A short history on the empty store: Bob registers, Eve registers, Bob
    logs in, asks for a reset token and sets a new password. *)
Definition c_bob : Call := call_register_user "bob@x.io" "pw1" [x01].
Definition c_eve : Call := call_register_user "eve@x.io" "pw9" [x02].
Definition c_login : Call := call_create_session "bob@x.io" "S1".
Definition c_token : Call := call_get_reset_password_token "bob@x.io" "R1".
Definition c_reset : Call := call_update_password (Some "R1") (Some "pw2") [x03].

Definition db_1 : DB := @exec toy_bcrypt c_bob new_db.
Definition db_2 : DB := @exec toy_bcrypt c_eve db_1.
Definition db_3 : DB := @exec toy_bcrypt c_login db_2.
Definition db_4 : DB := @exec toy_bcrypt c_token db_3.
Definition db_5 : DB := @exec toy_bcrypt c_reset db_4.

Definition g_1 : Plain := @track toy_bcrypt c_bob new_db (fun _ => None).
Definition g_2 : Plain := @track toy_bcrypt c_eve db_1 g_1.
Definition g_3 : Plain := @track toy_bcrypt c_login db_2 g_2.
Definition g_4 : Plain := @track toy_bcrypt c_token db_3 g_3.
Definition g_5 : Plain := @track toy_bcrypt c_reset db_4 g_4.

(** Bob while logged in with the session ["S1"]. *)
Definition bob_in : User :=
  mkUser 1 "bob@x.io" (toy_hashpw (encode "pw1") [x01]) (Some "S1") None.

(** The pairs of a sample log line. *)
Definition sample_pairs : list (string * string) :=
  [("name", "bob"); (" email", "b@x.io"); (" username", "bo");
   (" ip", "1.2.3.4")].

Definition sample_draws : Main.Draws :=
  Main.mkDraws [x01] "W0" "S1" "R1" [x02] "S2".

(** A user record with the session cleared, everything else kept. *)
Definition logged_out (u : User) : User :=
  mkUser (id u) (email u) (hashed_password u) None (reset_token u).

(** The row with id [i] rewritten by [f], every other row kept. *)
Definition touch (i : Z) (f : Fields) (u : User) : User :=
  if Z.eqb (id u) i then apply_fields f u else u.

(** * Facts about the store *)

Lemma find_user_by_Ok k db u :
  find_user_by k db = Ok u -> In u (rows db) /\ matches k u = true.
Proof.
  unfold find_user_by. destruct (find (matches k) (rows db)) eqn:E; [|discriminate].
  intros [= <-]. now apply find_some in E.
Qed.

Lemma find_user_by_Raise k db e :
  find_user_by k db = Raise e ->
  e = NoResultFound /\ forall u, In u (rows db) -> matches k u = false.
Proof.
  unfold find_user_by. destruct (find (matches k) (rows db)) eqn:E; [discriminate|].
  intros [= <-]. split; [reflexivity|]. intros u Hu. now apply (find_none _ _ E).
Qed.

Lemma find_user_by_cases k db :
  (exists u, find_user_by k db = Ok u) \/ find_user_by k db = Raise NoResultFound.
Proof.
  unfold find_user_by. destruct (find (matches k) (rows db)); eauto.
Qed.

Lemma in_present {A : Type} (a : A) (l : list (option A)) :
  In a (present l) <-> In (Some a) l.
Proof.
  induction l as [|[b|] l IH]; simpl; [tauto| |].
  - rewrite IH. split; intros [H|H]; auto; left; congruence.
  - rewrite IH. split; [auto|]. intros [H|H]; [discriminate|auto].
Qed.

Lemma opt_string_eqb_true o s : opt_string_eqb o s = true <-> o = Some s.
Proof.
  destruct o as [s'|]; simpl; [|split; discriminate].
  rewrite String.eqb_eq. split; congruence.
Qed.

Lemma in_session_ids sid db :
  In sid (session_ids db) <-> exists u, In u (rows db) /\ session_id u = Some sid.
Proof.
  unfold session_ids. rewrite in_present, in_map_iff.
  split; intros [u [H1 H2]]; exists u; auto.
Qed.

Lemma in_reset_tokens t db :
  In t (reset_tokens db) <-> exists u, In u (rows db) /\ reset_token u = Some t.
Proof.
  unfold reset_tokens. rewrite in_present, in_map_iff.
  split; intros [u [H1 H2]]; exists u; auto.
Qed.

Lemma update_row_found i f l u :
  find (matches (by_id i)) l = Some u ->
  exists l', update_row i f l = Some l'
             /\ find (matches (by_id i)) l' = Some (apply_fields f u).
Proof.
  induction l as [|v l IH]; simpl; [discriminate|].
  destruct (Z.eqb_spec (id v) i) as [E|E].
  - intros [= ->]. eexists. split; [reflexivity|]. simpl.
    now rewrite E, Z.eqb_refl.
  - intros H. destruct (IH H) as [l' [-> H']]. simpl. eexists.
    split; [reflexivity|]. simpl.
    destruct (Z.eqb_spec (id v) i); [contradiction|assumption].
Qed.

Lemma update_row_again i f l l' :
  (forall u, apply_fields f (apply_fields f u) = apply_fields f u) ->
  update_row i f l = Some l' -> update_row i f l' = Some l'.
Proof.
  intros Hf. revert l'. induction l as [|v l IH]; simpl; [discriminate|].
  intros l'. destruct (Z.eqb_spec (id v) i) as [E|E].
  - intros [= <-]. simpl. rewrite E, Z.eqb_refl. now rewrite Hf.
  - destruct (update_row i f l) as [l0|]; [|discriminate].
    intros [= <-]. simpl.
    destruct (Z.eqb_spec (id v) i); [contradiction|].
    now rewrite (IH l0 eq_refl).
Qed.

Lemma update_row_logged_out i l l' :
  update_row i (mkFields None (Some None) None) l = Some l' ->
  map logged_out l' = map logged_out l.
Proof.
  revert l'. induction l as [|v l IH]; simpl; [discriminate|].
  intros l'. destruct (Z.eqb (id v) i).
  - intros [= <-]. reflexivity.
  - destruct (update_row i _ l) as [l0|]; [|discriminate].
    intros [= <-]. simpl. now rewrite (IH l0 eq_refl).
Qed.

(** * Sessions *)

Lemma destroy_session_found uid db u :
  find_user_by (by_id uid) db = Ok u ->
  exists l',
    update_row uid (mkFields None (Some None) None) (rows db) = Some l'
    /\ destroy_session (Some uid) db = (Ok tt, mkDB l' (next_id db))
    /\ find_user_by (by_id uid) (mkDB l' (next_id db)) = Ok (logged_out u).
Proof.
  intros F. unfold destroy_session. rewrite F.
  assert (Hid : id u = uid).
  { apply find_user_by_Ok in F as [_ F]. now apply Z.eqb_eq. }
  rewrite Hid. unfold find_user_by in F.
  destruct (find (matches (by_id uid)) (rows db)) as [v|] eqn:F0; [|discriminate].
  injection F as ->.
  destruct (update_row_found uid (mkFields None (Some None) None) _ _ F0)
    as [l' [U F']].
  exists l'. unfold update_user. rewrite U. repeat split.
  unfold find_user_by. cbn [rows]. now rewrite F'.
Qed.

Lemma destroy_session_missing uid db :
  find_user_by (by_id uid) db = Raise NoResultFound ->
  destroy_session (Some uid) db = (Ok tt, db).
Proof. intros F. unfold destroy_session. now rewrite F. Qed.

(** C7 (idempotent logout).  [destroy_session] never raises; calling it again
    with the same id changes nothing and does not raise; the user found under
    the id has [session_id = None] afterwards; with [None] for the id, or an
    id no user has, the store is left as it was; and no row is added, removed
    or changed in any field other than [session_id]. *)
Theorem destroy_session_idempotent (user_id : option Z) (db : DB) :
  let db1 := snd (destroy_session user_id db) in
  fst (destroy_session user_id db) = Ok tt
  /\ destroy_session user_id db1 = (Ok tt, db1)
  /\ (forall uid u, user_id = Some uid ->
        find_user_by (by_id uid) db = Ok u ->
        find_user_by (by_id uid) db1 = Ok (logged_out u))
  /\ (user_id = None -> db1 = db)
  /\ (forall uid, user_id = Some uid ->
        find_user_by (by_id uid) db = Raise NoResultFound -> db1 = db)
  /\ map logged_out (rows db1) = map logged_out (rows db)
  /\ next_id db1 = next_id db.
Proof.
  destruct user_id as [uid|]; cbv zeta.
  2:{ simpl. repeat split; auto; intros; discriminate. }
  destruct (find_user_by_cases (by_id uid) db) as [[u F]|F].
  - destruct (destroy_session_found _ _ _ F) as [l' [U [D F']]].
    rewrite D. cbn [fst snd].
    destruct (destroy_session_found _ _ _ F') as [l2 [U2 [D2 _]]].
    cbn [rows next_id] in U2, D2.
    rewrite (update_row_again uid (mkFields None (Some None) None) _ _
               (fun _ => eq_refl) U) in U2.
    injection U2 as <-. rewrite D2. repeat split.
    + intros ? ? [= <-]. rewrite F. now intros [= <-].
    + intros [=].
    + intros ? [= <-]. rewrite F. intros [=].
    + now apply update_row_logged_out in U.
  - rewrite (destroy_session_missing _ _ F). cbn [fst snd].
    rewrite (destroy_session_missing _ _ F). repeat split; auto.
    intros ? ? [= <-]. rewrite F. intros [=].
Qed.

(** On any store, [get_user_from_session_id] returns [None] for the token
    [None] and for a token no stored [session_id] equals; for any other
    token it returns a user whose stored [session_id] is that token. *)
Lemma get_user_from_session_id_held (db : DB) :
  get_user_from_session_id None db = Ok None
  /\ (forall sid, ~ In sid (session_ids db) ->
        get_user_from_session_id (Some sid) db = Ok None)
  /\ (forall sid, In sid (session_ids db) ->
        exists u, get_user_from_session_id (Some sid) db = Ok (Some u)
                  /\ In u (rows db) /\ session_id u = Some sid).
Proof.
  split; [reflexivity|]. split; intros sid H; simpl.
  - destruct (find_user_by_cases (by_session_id sid) db) as [[u E]| ->]; [|reflexivity].
    exfalso. apply H. apply find_user_by_Ok in E as [Hu Hm].
    apply in_session_ids. exists u. split; [assumption|].
    now apply opt_string_eqb_true.
  - destruct (find_user_by_cases (by_session_id sid) db) as [[u E]|E]; rewrite E.
    + apply find_user_by_Ok in E as [Hu Hm]. exists u. repeat split; auto.
      now apply opt_string_eqb_true.
    + exfalso. apply find_user_by_Raise in E as [_ E].
      apply in_session_ids in H as [u [Hu Hs]]. specialize (E u Hu).
      simpl in E. apply opt_string_eqb_true in Hs. congruence.
Qed.

(** Only [None] is tested before the lookup: on a store written by hand in
    which a user holds the empty string as session id, the empty token finds
    that user.  No history of the service with non-empty draws leads to such
    a store (see [run_nonempty] below). *)
Lemma get_user_from_session_id_empty_token :
  get_user_from_session_id (Some "") db_bob_odd = Ok (Some bob_odd)
  /\ ~ (forall db token, token = None \/ token = Some "" ->
          get_user_from_session_id token db = Ok None).
Proof.
  split; [reflexivity|]. intros H.
  specialize (H db_bob_odd (Some "") (or_intror eq_refl)). discriminate H.
Qed.

(** * Stores with distinct ids *)

Lemma NoDup_map_eq {A K : Type} (key : A -> K) (l : list A) a b :
  NoDup (map key l) -> In a l -> In b l -> key a = key b -> a = b.
Proof.
  induction l as [|x l IH]; simpl; [tauto|].
  intros N Ha Hb E. inversion N as [|? ? Hx N']; subst.
  destruct Ha as [->|Ha], Hb as [->|Hb]; auto.
  - exfalso. apply Hx. rewrite E. now apply in_map.
  - exfalso. apply Hx. rewrite <- E. now apply in_map.
Qed.

Lemma NoDup_present_eq {A T : Type} (tok : A -> option T) (l : list A) a b t :
  NoDup (present (map tok l)) -> In a l -> In b l ->
  tok a = Some t -> tok b = Some t -> a = b.
Proof.
  induction l as [|x l IH]; simpl; [tauto|].
  intros N Ha Hb Ea Eb.
  assert (Hin : forall y, In y l -> tok y = Some t -> In t (present (map tok l))).
  { intros y Hy Ey. apply in_present. rewrite <- Ey. now apply in_map. }
  destruct (tok x) as [s|] eqn:Ex.
  - inversion N as [|? ? Hx N']; subst.
    destruct Ha as [->|Ha], Hb as [->|Hb]; auto.
    + exfalso. apply Hx. assert (s = t) as -> by congruence. eauto.
    + exfalso. apply Hx. assert (s = t) as -> by congruence. eauto.
  - destruct Ha as [->|Ha]; [congruence|].
    destruct Hb as [->|Hb]; [congruence|]. auto.
Qed.

Lemma touch_absent i f l : ~ In i (map id l) -> map (touch i f) l = l.
Proof.
  induction l as [|u l IH]; simpl; [reflexivity|].
  intros H. unfold touch at 1.
  destruct (Z.eqb_spec (id u) i) as [E|E]; [tauto|].
  rewrite IH; tauto.
Qed.

Lemma update_row_touch i f l :
  NoDup (map id l) -> In i (map id l) ->
  update_row i f l = Some (map (touch i f) l).
Proof.
  induction l as [|u l IH]; simpl; [tauto|].
  intros N H. inversion N as [|? ? Hu N']; subst. unfold touch at 1.
  destruct (Z.eqb_spec (id u) i) as [E|E].
  - subst i. now rewrite touch_absent.
  - destruct H as [H|H]; [contradiction|]. now rewrite IH.
Qed.

Lemma update_user_touch i f db :
  NoDup (ids db) -> In i (ids db) ->
  update_user i f db = (Ok tt, mkDB (map (touch i f) (rows db)) (next_id db)).
Proof.
  intros N H. unfold update_user. now rewrite update_row_touch.
Qed.

Lemma touch_other i f u : id u <> i -> touch i f u = u.
Proof. intros H. unfold touch. now destruct (Z.eqb_spec (id u) i). Qed.

Lemma touch_id i f u : id (touch i f u) = id u.
Proof. unfold touch. now destruct (Z.eqb (id u) i). Qed.

Lemma touch_email i f u : email (touch i f u) = email u.
Proof. unfold touch. now destruct (Z.eqb (id u) i). Qed.

Lemma map_touch_ids i f l : map id (map (touch i f) l) = map id l.
Proof. rewrite map_map. apply map_ext. intros. apply touch_id. Qed.

Lemma map_touch_emails i f l : map email (map (touch i f) l) = map email l.
Proof. rewrite map_map. apply map_ext. intros. apply touch_email. Qed.

Lemma find_map_keep {A : Type} (P : A -> bool) (g : A -> A) (l : list A) :
  (forall x, P (g x) = P x) -> find P (map g l) = option_map g (find P l).
Proof.
  intros H. induction l as [|x l IH]; simpl; [reflexivity|].
  rewrite H. now destruct (P x).
Qed.

Lemma find_only {A : Type} (P : A -> bool) (l : list A) x :
  In x l -> P x = true -> (forall y, In y l -> P y = true -> y = x) ->
  find P l = Some x.
Proof.
  induction l as [|z l IH]; simpl; [tauto|].
  intros Hx Px U. destruct (P z) eqn:Pz.
  - f_equal. apply U; auto.
  - destruct Hx as [->|Hx]; [congruence|]. apply IH; auto.
Qed.

Lemma find_none_all {A : Type} (P : A -> bool) (l : list A) :
  (forall y, In y l -> P y = false) -> find P l = None.
Proof.
  induction l as [|z l IH]; simpl; [reflexivity|].
  intros H. rewrite (H z (or_introl eq_refl)). apply IH. auto.
Qed.

Lemma found_id_in k db u : find_user_by k db = Ok u -> In (id u) (ids db).
Proof. intros F. apply find_user_by_Ok in F as [F _]. now apply in_map. Qed.

(** C4 (session round trip).  In a store with distinct ids, for a registered
    email and a session id no user holds yet, [create_session] returns the
    session id; [get_user_from_session_id] on it returns the very user the
    lookup by email returns; and after [destroy_session] with that user's id
    it returns [None]. *)
Theorem session_round_trip (e uuid4 : string) (db : DB) (u : User) :
  NoDup (ids db) ->
  ~ In uuid4 (session_ids db) ->
  find_user_by (by_email e) db = Ok u ->
  exists db1 db2 u1,
    create_session e uuid4 db = (Ok (Some uuid4), db1)
    /\ u1 = mkUser (id u) (email u) (hashed_password u) (Some uuid4) (reset_token u)
    /\ find_user_by (by_email e) db1 = Ok u1
    /\ get_user_from_session_id (Some uuid4) db1 = Ok (Some u1)
    /\ destroy_session (Some (id u1)) db1 = (Ok tt, db2)
    /\ get_user_from_session_id (Some uuid4) db2 = Ok None.
Proof.
  intros N Fresh F.
  set (f := mkFields None (Some (Some uuid4)) None).
  set (db1 := mkDB (map (touch (id u) f) (rows db)) (next_id db)).
  assert (Hu1 : touch (id u) f u
                = mkUser (id u) (email u) (hashed_password u) (Some uuid4) (reset_token u)).
  { unfold touch. now rewrite Z.eqb_refl. }
  assert (C : create_session e uuid4 db = (Ok (Some uuid4), db1)).
  { unfold create_session. rewrite F. unfold _generate_uuid.
    rewrite update_user_touch; eauto using found_id_in. }
  assert (F1 : find_user_by (by_email e) db1 = Ok (touch (id u) f u)).
  { unfold find_user_by in *. cbn [rows db1].
    rewrite find_map_keep.
    - destruct (find (matches (by_email e)) (rows db)); [|discriminate].
      now injection F as ->.
    - intros x. simpl. now rewrite touch_email. }
  pose proof (find_user_by_Ok _ _ _ F) as [Hin _].
  assert (S1 : forall y, In y (rows db1) ->
                         matches (by_session_id uuid4) y = true ->
                         y = touch (id u) f u).
  { intros y Hy My. cbn [rows db1] in Hy. apply in_map_iff in Hy as [v [<- Hv]].
    destruct (Z.eqb_spec (id v) (id u)) as [E|E].
    - now rewrite (NoDup_map_eq id _ _ _ N Hv Hin E).
    - exfalso. rewrite (touch_other _ _ _ E) in My. apply Fresh. apply in_session_ids. exists v. split; [assumption|].
      now apply opt_string_eqb_true. }
  assert (G1 : get_user_from_session_id (Some uuid4) db1
               = Ok (Some (touch (id u) f u))).
  { unfold get_user_from_session_id, find_user_by.
    rewrite (find_only _ _ (touch (id u) f u)); auto.
    - cbn [rows db1]. now apply in_map.
    - rewrite Hu1. simpl. now rewrite String.eqb_refl. }
  set (g := mkFields None (Some None) None).
  exists db1, (mkDB (map (touch (id u) g) (rows db1)) (next_id db1)),
    (touch (id u) f u).
  rewrite <- Hu1. repeat split; auto.
  - rewrite touch_id. unfold destroy_session.
    assert (Fi : find_user_by (by_id (id u)) db1 = Ok (touch (id u) f u)).
    { unfold find_user_by. rewrite (find_only _ _ (touch (id u) f u)); auto.
      - cbn [rows db1]. now apply in_map.
      - simpl. rewrite touch_id. apply Z.eqb_refl.
      - intros y Hy My. cbn [rows db1] in Hy.
        apply in_map_iff in Hy as [v [<- Hv]]. simpl in My.
        rewrite touch_id in My. apply Z.eqb_eq in My.
        now rewrite (NoDup_map_eq id _ _ _ N Hv Hin My). }
    rewrite Fi, touch_id. rewrite update_user_touch; [reflexivity| |].
    + unfold ids. cbn [rows db1]. now rewrite map_touch_ids.
    + unfold ids. cbn [rows db1]. rewrite map_touch_ids. now apply in_map.
  - unfold get_user_from_session_id, find_user_by. cbn [rows].
    rewrite find_none_all; [reflexivity|].
    intros y Hy. apply in_map_iff in Hy as [w [<- Hw]].
    unfold touch at 1. destruct (Z.eqb_spec (id w) (id u)) as [E|E].
    + reflexivity.
    + destruct (matches (by_session_id uuid4) w) eqn:Mw; [|reflexivity].
      exfalso. apply E. rewrite (S1 w Hw Mw). apply touch_id.
Qed.

(** * Passwords and reset tokens *)

Section Passwords.
Context {B : Bcrypt}.

Lemma update_password_found token password salt db u h :
  NoDup (ids db) ->
  find_user_by (by_reset_token token) db = Ok u ->
  _hash_password password salt = Ok h ->
  update_password (Some token) (Some password) salt db
  = (Ok tt, mkDB (map (touch (id u) (reset_fields h)) (rows db))
                 (next_id db)).
Proof.
  intros N F H. unfold update_password. rewrite F, H.
  rewrite update_user_touch; eauto using found_id_in.
Qed.

(** What bcrypt raises for the new password, [update_password] raises, with
    nothing written. *)
Lemma update_password_refused token password salt db u x :
  find_user_by (by_reset_token token) db = Ok u ->
  _hash_password password salt = Raise x ->
  update_password (Some token) (Some password) salt db = (Raise x, db).
Proof.
  intros F H. unfold update_password. now rewrite F, H.
Qed.

Lemma update_password_missing token password salt db :
  ~ In token (reset_tokens db) ->
  update_password (Some token) (Some password) salt db = (Raise ValueError, db).
Proof.
  intros H. unfold update_password.
  destruct (find_user_by_cases (by_reset_token token) db) as [[u F]| ->];
    [|reflexivity].
  exfalso. apply H. apply find_user_by_Ok in F as [Hu Hm].
  apply in_reset_tokens. exists u. split; [assumption|].
  now apply opt_string_eqb_true.
Qed.

Lemma update_password_Ok token password salt db db' :
  update_password (Some token) (Some password) salt db = (Ok tt, db') ->
  exists u h, find_user_by (by_reset_token token) db = Ok u
              /\ _hash_password password salt = Ok h.
Proof.
  unfold update_password.
  destruct (find_user_by_cases (by_reset_token token) db) as [[u F]| ->];
    [|discriminate].
  rewrite F. destruct (_hash_password password salt) as [h|x]; eauto.
  discriminate.
Qed.

(** C1 (reset token, single use).  In a store with distinct ids and distinct
    reset tokens, when [update_password] succeeds with a token, bcrypt has
    hashed the new password and the call has made one [update_user] call that
    writes the new hash and [reset_token=None] for the user holding the
    token, that user is stored with no reset token, and [update_password]
    with the same token raises [ValueError] whatever the new password. *)
Theorem update_password_single_use (token password : string) (salt : list byte)
    (db db' : DB) :
  NoDup (ids db) ->
  NoDup (reset_tokens db) ->
  update_password (Some token) (Some password) salt db = (Ok tt, db') ->
  exists u h,
    find_user_by (by_reset_token token) db = Ok u
    /\ _hash_password password salt = Ok h
    /\ update_user (id u) (mkFields (Some h) None (Some None)) db
       = (Ok tt, db')
    /\ find_user_by (by_id (id u)) db'
       = Ok (mkUser (id u) (email u) h (session_id u) None)
    /\ forall password' salt',
         update_password (Some token) (Some password') salt' db'
         = (Raise ValueError, db').
Proof.
  intros N NT U. destruct (update_password_Ok _ _ _ _ _ U) as [u [h [F H]]].
  exists u, h. split; [assumption|]. split; [assumption|].
  pose proof (find_user_by_Ok _ _ _ F) as [Hin Hm].
  simpl in Hm. apply opt_string_eqb_true in Hm.
  rewrite (update_password_found _ _ _ _ _ _ N F H) in U. injection U as <-.
  split; [apply update_user_touch; eauto using found_id_in|].
  assert (Hu : touch (id u) (reset_fields h) u
               = mkUser (id u) (email u) h (session_id u) None).
  { unfold touch. now rewrite Z.eqb_refl. }
  split.
  - unfold find_user_by. cbn [rows]. rewrite <- Hu.
    rewrite (find_only _ _ (touch (id u) (reset_fields h) u));
      auto using in_map.
    + simpl. rewrite touch_id. apply Z.eqb_refl.
    + intros y Hy My. apply in_map_iff in Hy as [v [<- Hv]]. simpl in My.
      rewrite touch_id in My. apply Z.eqb_eq in My.
      now rewrite (NoDup_map_eq id _ _ _ N Hv Hin My).
  - intros password' salt'. apply update_password_missing.
    rewrite in_reset_tokens. cbn [rows]. intros [w [Hw Tw]].
    apply in_map_iff in Hw as [v [<- Hv]].
    destruct (Z.eqb_spec (id v) (id u)) as [E|E].
    + rewrite (NoDup_map_eq id _ _ _ N Hv Hin E), Hu in Tw. discriminate.
    + rewrite (touch_other _ _ _ E) in Tw. apply E. f_equal.
      exact (NoDup_present_eq reset_token _ _ _ _ NT Hv Hin Tw Hm).
Qed.

(** C10 (frame of a password reset).  In a store with distinct ids, a
    successful [update_password] rewrites only the row of the user holding the
    token, and there only [hashed_password] (to the hash bcrypt made of the
    new password) and [reset_token]: ids, emails and session ids are as
    before, every other row is untouched, and a session id still leads to the
    same user. *)
Theorem update_password_frame (token password : string) (salt : list byte)
    (db db' : DB) :
  NoDup (ids db) ->
  update_password (Some token) (Some password) salt db = (Ok tt, db') ->
  exists u h,
    find_user_by (by_reset_token token) db = Ok u
    /\ _hash_password password salt = Ok h
    /\ rows db'
       = map (fun v =>
                if Z.eqb (id v) (id u)
                then mkUser (id v) (email v) h (session_id v) None
                else v) (rows db)
    /\ next_id db' = next_id db
    /\ map id (rows db') = map id (rows db)
    /\ map email (rows db') = map email (rows db)
    /\ map session_id (rows db') = map session_id (rows db)
    /\ (forall v, In v (rows db) -> id v <> id u -> In v (rows db'))
    /\ (forall sid w,
          get_user_from_session_id (Some sid) db = Ok (Some w) ->
          exists w',
            get_user_from_session_id (Some sid) db' = Ok (Some w')
            /\ id w' = id w /\ email w' = email w
            /\ session_id w' = session_id w).
Proof.
  intros N U. destruct (update_password_Ok _ _ _ _ _ U) as [u [h [F H]]].
  exists u, h. split; [assumption|]. split; [assumption|].
  rewrite (update_password_found _ _ _ _ _ _ N F H) in U. injection U as <-.
  cbn [rows next_id].
  set (f := reset_fields h).
  assert (Ks : forall v, session_id (touch (id u) f v) = session_id v).
  { intros v. unfold touch. now destruct (Z.eqb (id v) (id u)). }
  repeat split.
  - apply map_touch_ids.
  - apply map_touch_emails.
  - rewrite map_map. apply map_ext. exact Ks.
  - intros v Hv E. apply in_map_iff. exists v. split; [|assumption].
    now apply touch_other.
  - intros sid w. unfold get_user_from_session_id, find_user_by. cbn [rows].
    rewrite (find_map_keep _ (touch (id u) f)).
    + destruct (find (matches (by_session_id sid)) (rows db)) as [x|];
        [|discriminate].
      intros [= <-]. exists (touch (id u) f x). simpl.
      auto using touch_id, touch_email.
    + intros x. simpl. now rewrite Ks.
Qed.

(** C6, as the code has it.  [update_password] returns without touching the
    store when an argument is [None]; with a token and a password, empty or
    not, and no user holding the token, it raises [ValueError]. *)
Theorem update_password_guard (reset_token password : option string)
    (salt : list byte) (db : DB) :
  (reset_token = None \/ password = None ->
   update_password reset_token password salt db = (Ok tt, db))
  /\ (forall t p, reset_token = Some t -> password = Some p ->
        ~ In t (reset_tokens db) ->
        update_password reset_token password salt db = (Raise ValueError, db)).
Proof.
  split.
  - intros [-> | ->]; [reflexivity|]. now destruct reset_token.
  - intros t p -> -> H. now apply update_password_missing.
Qed.

End Passwords.

(** C6, the claim as written fails: an empty token is looked up and, held by
    nobody, raises [ValueError]; an empty password is hashed and stored. *)
Lemma update_password_empty_arguments :
  @update_password toy_bcrypt (Some "") (Some "pw") [] new_db
  = (Raise ValueError, new_db)
  /\ @update_password toy_bcrypt (Some "R") (Some "") [] db_bob_odd
     = (Ok tt, mkDB [mkUser 1 "bob@x.io" [x24; x00] (Some "") None] 2)
  /\ ~ (forall token password salt db,
          token = None \/ token = Some "" \/
          password = None \/ password = Some "" ->
          @update_password toy_bcrypt token password salt db = (Ok tt, db)).
Proof.
  split; [reflexivity|]. split; [reflexivity|]. intros H.
  specialize (H (Some "") (Some "pw") [] new_db (or_intror (or_introl eq_refl))).
  discriminate H.
Qed.

(** * Registration and histories *)

Lemma in_emails_found e db :
  In e (emails db) <-> exists u, find_user_by (by_email e) db = Ok u.
Proof.
  split.
  - intros H. apply in_map_iff in H as [v [Ev Hv]].
    destruct (find_user_by_cases (by_email e) db) as [F|F]; [assumption|].
    apply find_user_by_Raise in F as [_ F]. specialize (F v Hv). simpl in F.
    apply String.eqb_neq in F. contradiction.
  - intros [u F]. apply find_user_by_Ok in F as [Hu Hm]. simpl in Hm.
    apply String.eqb_eq in Hm. subst e. now apply in_map.
Qed.

Lemma not_in_emails_missing e db :
  ~ In e (emails db) -> find_user_by (by_email e) db = Raise NoResultFound.
Proof.
  intros H. destruct (find_user_by_cases (by_email e) db) as [F|F]; [|assumption].
  exfalso. apply H. now apply in_emails_found.
Qed.

Lemma existsb_email e db :
  existsb (matches (by_email e)) (rows db) = true <-> In e (emails db).
Proof.
  rewrite existsb_exists. unfold emails. rewrite in_map_iff.
  split; intros [u [H1 H2]]; exists u; simpl in *.
  - apply String.eqb_eq in H2. auto.
  - rewrite H1. auto using String.eqb_refl.
Qed.

Lemma update_row_emails i f l l' :
  update_row i f l = Some l' -> map email l' = map email l.
Proof.
  revert l'. induction l as [|v l IH]; simpl; [discriminate|].
  intros l'. destruct (Z.eqb (id v) i).
  - intros [= <-]. reflexivity.
  - destruct (update_row i f l) as [l0|]; [|discriminate].
    intros [= <-]. simpl. now rewrite (IH l0 eq_refl).
Qed.

Lemma update_user_emails i f db : emails (snd (update_user i f db)) = emails db.
Proof.
  unfold update_user. destruct (update_row i f (rows db)) as [l|] eqn:U;
    [|reflexivity].
  simpl. unfold emails. simpl. now apply update_row_emails in U.
Qed.

Section Histories.
Context {B : Bcrypt}.

Lemma register_user_taken e password salt db :
  In e (emails db) -> register_user e password salt db = (Raise ValueError, db).
Proof.
  intros H. apply in_emails_found in H as [u F].
  unfold register_user. now rewrite F.
Qed.

Lemma register_user_fresh e password salt db h :
  ~ In e (emails db) ->
  _hash_password password salt = Ok h ->
  register_user e password salt db
  = (Ok (mkUser (next_id db) e h None None),
     mkDB (rows db ++ [mkUser (next_id db) e h None None]) (next_id db + 1)).
Proof.
  intros H Hh. unfold register_user. rewrite (not_in_emails_missing _ _ H), Hh.
  unfold add_user. destruct (existsb _ _) eqn:X; [|reflexivity].
  apply existsb_email in X. contradiction.
Qed.

(** What bcrypt raises for the password, [register_user] raises, with
    nothing added. *)
Lemma register_user_refused e password salt db x :
  ~ In e (emails db) ->
  _hash_password password salt = Raise x ->
  register_user e password salt db = (Raise x, db).
Proof.
  intros H Hh. unfold register_user.
  now rewrite (not_in_emails_missing _ _ H), Hh.
Qed.

Lemma exec_effect c db : effect db c (exec c db).
Proof.
  destruct c as [e p salt|e p|e u|sid|uid|e u|t p salt]; simpl;
    try apply effect_none.
  - destruct (in_dec string_dec e (emails db)) as [H|H].
    + rewrite register_user_taken by assumption. apply effect_none.
    + destruct (_hash_password p salt) as [h|x] eqn:Hh.
      * rewrite (register_user_fresh _ _ _ _ h) by assumption. simpl.
        now apply effect_add with (h := h).
      * rewrite (register_user_refused _ _ _ _ x) by assumption.
        apply effect_none.
  - unfold create_session.
    destruct (find_user_by_cases (by_email e) db) as [[v F]|F]; rewrite F;
      [|apply effect_none].
    apply find_user_by_Ok in F as [Hv _].
    set (f := mkFields None (Some (Some (_generate_uuid u))) None).
    replace (snd _) with (snd (update_user (id v) f db))
      by (destruct (update_user (id v) f db) as [[?|?] ?]; reflexivity).
    apply effect_update; auto.
  - unfold destroy_session. destruct uid as [uid|]; [|apply effect_none].
    destruct (find_user_by_cases (by_id uid) db) as [[v F]|F]; rewrite F;
      [|apply effect_none].
    apply find_user_by_Ok in F as [Hv _].
    set (f := mkFields None (Some None) None).
    replace (snd _) with (snd (update_user (id v) f db))
      by (destruct (update_user (id v) f db) as [[?|[]] ?]; reflexivity).
    apply effect_update; auto.
  - unfold get_reset_password_token.
    destruct (find_user_by_cases (by_email e) db) as [[v F]|F]; rewrite F;
      [|apply effect_none].
    apply find_user_by_Ok in F as [Hv _].
    set (f := mkFields None None (Some (Some (_generate_uuid u)))).
    replace (snd _) with (snd (update_user (id v) f db))
      by (destruct (update_user (id v) f db) as [[?|?] ?]; reflexivity).
    apply effect_update; auto.
  - destruct t as [t|]; [|apply effect_none].
    destruct p as [p|]; [|apply effect_none].
    unfold update_password.
    destruct (find_user_by_cases (by_reset_token t) db) as [[v F]|F]; rewrite F;
      [|apply effect_none].
    pose proof (find_user_by_Ok _ _ _ F) as [Hv _].
    destruct (_hash_password p salt) as [h|x] eqn:Hh; [|apply effect_none].
    apply effect_update with (f := reset_fields h); [assumption|].
    simpl. now rewrite Hh.
Qed.

Lemma effect_emails db c db' : effect db c db' -> incl (emails db) (emails db').
Proof.
  intros [c0|c0 u f _ _|e p salt h _ _].
  - apply incl_refl.
  - rewrite update_user_emails. apply incl_refl.
  - unfold emails. simpl. rewrite map_app. now apply incl_appl, incl_refl.
Qed.

Lemma run_emails calls db : incl (emails db) (emails (run calls db)).
Proof.
  revert db. induction calls as [|c calls IH]; intros db; simpl.
  - apply incl_refl.
  - eapply incl_tran; [|apply IH]. eapply effect_emails, exec_effect.
Qed.

(** C2, as the code has it.  [register_user] with
    an email some stored user has raises [ValueError] and leaves the store
    alone.  With an email no stored user has, it passes the bytes of the
    password and the salt to bcrypt's [hashpw]: when [hashpw] returns a hash,
    the call returns the new user carrying that hash and that user is added
    to the store; when [hashpw] raises (as bcrypt does from release 5.0.0 on
    for a password above 72 bytes), the call raises the same exception and
    the store is unchanged.  Once a call for an email has succeeded, every
    later call for that email raises [ValueError], whatever calls came in
    between. *)
Theorem register_user_unique (e password : string) (salt : list byte) (db : DB) :
  (In e (emails db) ->
   register_user e password salt db = (Raise ValueError, db))
  /\ (~ In e (emails db) ->
      forall h, hashpw (list_byte_of_string password) salt = Ok h ->
      let user := mkUser (next_id db) e h None None in
      register_user e password salt db
      = (Ok user, mkDB (rows db ++ [user]) (next_id db + 1)))
  /\ (~ In e (emails db) ->
      forall x, hashpw (list_byte_of_string password) salt = Raise x ->
      register_user e password salt db = (Raise x, db))
  /\ (forall user, fst (register_user e password salt db) = Ok user ->
      forall calls password' salt',
        let later := run calls (snd (register_user e password salt db)) in
        register_user e password' salt' later = (Raise ValueError, later)).
Proof.
  split; [apply register_user_taken|].
  split; [intros I h Hh; now apply register_user_fresh|].
  split; [intros I x Hx; now apply register_user_refused|].
  intros user H calls password' salt' later.
  apply register_user_taken. apply run_emails.
  destruct (in_dec string_dec e (emails db)) as [I|I].
  - rewrite register_user_taken in H by assumption. discriminate.
  - destruct (_hash_password password salt) as [h|x] eqn:Hh.
    + rewrite (register_user_fresh _ _ _ _ h) by assumption.
      unfold emails. simpl. rewrite map_app. apply in_or_app. right. now left.
    + rewrite (register_user_refused _ _ _ _ x) in H by assumption.
      discriminate.
Qed.

End Histories.

(** * The invariant of reachable stores *)

Lemma encode_inj p q : encode p = encode q -> p = q.
Proof.
  unfold encode. intros H.
  rewrite <- (string_of_list_byte_of_string p), H.
  apply string_of_list_byte_of_string.
Qed.

Lemma wf_new : wf new_db.
Proof. split; simpl; try constructor; tauto. Qed.

Lemma wf_update u f db :
  wf db -> In u (rows db) -> wf (snd (update_user (id u) f db)).
Proof.
  intros [N X E] Hu.
  rewrite update_user_touch; [|assumption|now apply in_map].
  split; unfold ids, emails in *; cbn [snd rows next_id].
  - now rewrite map_touch_ids.
  - now rewrite map_touch_ids.
  - now rewrite map_touch_emails.
Qed.

Lemma wf_add e h db :
  wf db -> ~ In e (emails db) ->
  wf (mkDB (rows db ++ [mkUser (next_id db) e h None None]) (next_id db + 1)).
Proof.
  intros [N X E] He. split; unfold ids, emails in *; cbn [rows next_id].
  - rewrite map_app. simpl. apply NoDup_app.
    + assumption.
    + repeat constructor. simpl. tauto.
    + intros i Hi [<-|[]]. specialize (X _ Hi). simpl in X. lia.
  - intros i Hi. rewrite map_app in Hi. apply in_app_or in Hi as [Hi|[<-|[]]].
    + specialize (X _ Hi). lia.
    + simpl. lia.
  - rewrite map_app. simpl. apply NoDup_app.
    + assumption.
    + repeat constructor. simpl. tauto.
    + intros x Hx [<-|[]]. contradiction.
Qed.

Section Invariant.
Context {B : Bcrypt}.

Lemma tracked_update_keep u f db g :
  wf db -> In u (rows db) -> set_hashed_password f = None ->
  hashes_tracked db g -> hashes_tracked (snd (update_user (id u) f db)) g.
Proof.
  intros W Hu Hf T.
  rewrite update_user_touch; [|apply W|now apply in_map].
  intros w Hw. cbn [snd rows] in Hw. apply in_map_iff in Hw as [v [<- Hv]].
  destruct (T v Hv) as [p [salt [Gp Hp]]]. exists p, salt.
  rewrite touch_email. split; [assumption|].
  unfold touch. destruct (Z.eqb (id v) (id u)); [|assumption].
  simpl. now rewrite Hf.
Qed.

Lemma tracked_update_password u p salt h db g :
  wf db -> In u (rows db) -> hashes_tracked db g ->
  _hash_password p salt = Ok h ->
  hashes_tracked (snd (update_user (id u) (reset_fields h) db))
                 (set_plain g (email u) p).
Proof.
  intros W Hu T Hh.
  rewrite update_user_touch; [|apply W|now apply in_map].
  intros w Hw. cbn [snd rows] in Hw. apply in_map_iff in Hw as [v [<- Hv]].
  rewrite touch_email. unfold set_plain.
  destruct (Z.eqb_spec (id v) (id u)) as [E|E].
  - rewrite (NoDup_map_eq id _ _ _ (wf_ids _ W) Hv Hu E).
    rewrite String.eqb_refl. exists p, salt. split; [reflexivity|].
    unfold touch. now rewrite Z.eqb_refl.
  - rewrite (touch_other _ _ _ E).
    destruct (String.eqb_spec (email v) (email u)) as [Ee|Ee].
    + exfalso. apply E. f_equal.
      exact (NoDup_map_eq email _ _ _ (wf_emails _ W) Hv Hu Ee).
    + now apply T.
Qed.

Lemma tracked_add e p salt h db g :
  ~ In e (emails db) -> hashes_tracked db g ->
  _hash_password p salt = Ok h ->
  hashes_tracked
    (mkDB (rows db ++ [mkUser (next_id db) e h None None]) (next_id db + 1))
    (set_plain g e p).
Proof.
  intros He T Hh w Hw. cbn [rows] in Hw. unfold set_plain.
  apply in_app_or in Hw as [Hw|[<-|[]]].
  - destruct (String.eqb_spec (email w) e) as [E|E].
    + exfalso. apply He. rewrite <- E. now apply in_map.
    + now apply T.
  - simpl. rewrite String.eqb_refl. eauto.
Qed.

Lemma exec_invariant c db g :
  wf db -> hashes_tracked db g ->
  wf (exec c db) /\ hashes_tracked (exec c db) (track c db g).
Proof.
  intros W T.
  assert (Quiet : (forall t p salt, c <> call_update_password t p salt) ->
                  (forall e p salt, c <> call_register_user e p salt) ->
                  wf (exec c db) /\ hashes_tracked (exec c db) g).
  { intros Hp Hr.
    destruct (exec_effect c db) as [c0|c0 u f Hu Hf|e p salt h He Hh].
    - auto.
    - assert (set_hashed_password f = None).
      { destruct c0 as [| | | | | |t p salt]; try discriminate;
          try (now injection Hf as <-).
        now destruct (Hp t p salt). }
      split; [now apply wf_update|now apply tracked_update_keep].
    - now destruct (Hr e p salt). }
  destruct c as [e p salt|e p|e u|sid|uid|e u|t p salt];
    try (apply Quiet; intros; discriminate).
  - simpl. destruct (in_dec string_dec e (emails db)) as [H|H].
    + rewrite register_user_taken by assumption. auto.
    + destruct (_hash_password p salt) as [h|x] eqn:Hh.
      * rewrite (register_user_fresh _ _ _ _ h) by assumption. simpl.
        split; [now apply wf_add|now apply tracked_add with (salt := salt)].
      * rewrite (register_user_refused _ _ _ _ x) by assumption. auto.
  - destruct t as [t|]; [|simpl; auto].
    destruct p as [p|]; [|simpl; auto].
    cbn [exec track]. unfold update_password.
    destruct (find_user_by_cases (by_reset_token t) db) as [[u F]|F]; rewrite F;
      [|simpl; auto].
    pose proof (find_user_by_Ok _ _ _ F) as [Hu _].
    destruct (_hash_password p salt) as [h|x] eqn:Hh; [|simpl; auto].
    fold (reset_fields h).
    split; [now apply wf_update|].
    rewrite update_user_touch at 2; [|apply W|now apply in_map].
    cbn [fst]. now apply tracked_update_password with (salt := salt).
Qed.

Lemma reachable_invariant db g :
  reachable db g -> wf db /\ hashes_tracked db g.
Proof.
  induction 1 as [|c db g _ [W T]].
  - split; [apply wf_new|]. intros u [].
  - now apply exec_invariant.
Qed.

Context {L : BcryptSpec B}.

(** Against a hash made of a password of at most 72 bytes, a candidate of
    at most 72 bytes verifies exactly when it is that password. *)
Lemma valid_login_hash e p' p salt db u :
  find_user_by (by_email e) db = Ok u ->
  _hash_password p salt = Ok (hashed_password u) ->
  short (encode p) -> short (encode p') ->
  valid_login e p' db = Ok (String.eqb p' p).
Proof.
  intros F H Sp Sp'. unfold valid_login. rewrite F.
  destruct (checkpw_hashpw _ _ _ _ Sp' Sp H) as [b [-> Hb]].
  f_equal. destruct (String.eqb_spec p' p) as [->|Ne].
  - now apply Hb.
  - destruct b; [|reflexivity].
    exfalso. apply Ne, encode_inj. now apply Hb.
Qed.

(** C3, as the code has it.  In a store the service has reached,
    with no user for the email [valid_login] returns [False], whatever the
    password.  For a password of at most 72 bytes, when the plaintext last
    supplied for the email (at registration or at the latest successful
    [update_password]) has at most 72 bytes as well, and bcrypt keeps its
    contract on such passwords, [valid_login] does not raise and returns
    [True] exactly when some user has the email and the password is that
    plaintext. *)
Theorem valid_login_correct (e password : string) (db : DB) (g : Plain) :
  reachable db g ->
  (~ In e (emails db) -> valid_login e password db = Ok false)
  /\ (short (list_byte_of_string password) ->
      (forall q, g e = Some q -> short (list_byte_of_string q)) ->
      (valid_login e password db = Ok true
       <-> In e (emails db) /\ g e = Some password)
      /\ exists b, valid_login e password db = Ok b).
Proof.
  intros R. destruct (reachable_invariant _ _ R) as [W T]. split.
  - intros He. unfold valid_login. now rewrite (not_in_emails_missing _ _ He).
  - intros Sp Sq.
    destruct (find_user_by_cases (by_email e) db) as [[u F]|F].
    + assert (He : In e (emails db)) by (apply in_emails_found; eauto).
      pose proof (find_user_by_Ok _ _ _ F) as [Hu Hm]. simpl in Hm.
      apply String.eqb_eq in Hm.
      destruct (T u Hu) as [p [salt [Gp Hp]]]. rewrite Hm in Gp.
      rewrite (valid_login_hash _ _ _ _ _ _ F Hp (Sq _ Gp) Sp). rewrite Gp.
      split; [|eauto]. split.
      * intros [= E]. apply String.eqb_eq in E. now subst p.
      * intros [_ [= ->]]. now rewrite String.eqb_refl.
    + unfold valid_login. rewrite F. split; [|eauto]. split; [discriminate|].
      intros [He _]. apply in_emails_found in He as [u Fu]. congruence.
Qed.

(** C8 (no plaintext, no empty hash).  In a store the service has reached,
    whatever the calls ([register_user], [update_password] and the others),
    every stored [hashed_password] is non-empty and is the hash bcrypt
    returned for the plaintext last supplied for its user, and differs from
    that plaintext. *)
Theorem hashed_password_never_plain (db : DB) (g : Plain) (u : User) :
  reachable db g ->
  In u (rows db) ->
  hashed_password u <> []
  /\ exists p salt,
       g (email u) = Some p
       /\ _hash_password p salt = Ok (hashed_password u)
       /\ hashed_password u <> encode p.
Proof.
  intros R Hu. destruct (reachable_invariant _ _ R) as [_ T].
  destruct (T u Hu) as [p [salt [Gp Hp]]].
  split; [exact (hashpw_nonempty _ _ _ Hp)|]. exists p, salt.
  repeat split; auto. exact (hashpw_not_plain _ _ _ Hp).
Qed.

End Invariant.

(** * Fresh draws keep tokens distinct *)

Lemma NoDup_present_intro {A T : Type} (tok : A -> option T) (l : list A) :
  NoDup l ->
  (forall a b t, In a l -> In b l -> tok a = Some t -> tok b = Some t -> a = b) ->
  NoDup (present (map tok l)).
Proof.
  induction 1 as [|x l Hx N IH]; intros U; simpl; [constructor|].
  assert (N' : NoDup (present (map tok l))).
  { apply IH. intros a b t Ha Hb. apply U; now right. }
  destruct (tok x) as [s|] eqn:Ex; [|assumption].
  constructor; [|assumption].
  intros Hs. apply in_present, in_map_iff in Hs as [b [Eb Hb]].
  apply Hx. now rewrite (U x b s (or_introl eq_refl) (or_intror Hb) Ex Eb).
Qed.

Lemma NoDup_present_touch (tok : User -> option string)
    (new : option (option string)) i f l :
  (forall u, tok (apply_fields f u) = or_keep new (tok u)) ->
  NoDup (map id l) ->
  NoDup (present (map tok l)) ->
  (forall t, new = Some (Some t) -> ~ In t (present (map tok l))) ->
  NoDup (present (map tok (map (touch i f) l))).
Proof.
  intros Hf N NT Fresh.
  assert (Held : forall v t, In v l -> tok v = Some t ->
                             In t (present (map tok l))).
  { intros v t Hv Ev. apply in_present. rewrite <- Ev. now apply in_map. }
  assert (Mixed : forall a b t, In a l -> In b l -> id a = i -> id b <> i ->
                    tok (apply_fields f a) = Some t -> tok b = Some t -> a = b).
  { intros a b t Ha Hb Ea Eb Ta Tb. rewrite Hf in Ta.
    destruct new as [[t'|]|]; simpl in Ta.
    - injection Ta as ->. now destruct (Fresh t eq_refl (Held b t Hb Tb)).
    - discriminate.
    - exact (NoDup_present_eq tok _ _ _ _ NT Ha Hb Ta Tb). }
  apply NoDup_present_intro.
  - apply (NoDup_map_inv id). now rewrite map_touch_ids.
  - intros a' b' t Ha Hb.
    apply in_map_iff in Ha as [a [<- Ha]]. apply in_map_iff in Hb as [b [<- Hb]].
    unfold touch.
    destruct (Z.eqb_spec (id a) i) as [Ea|Ea], (Z.eqb_spec (id b) i) as [Eb|Eb];
      intros Ta Tb.
    + now rewrite (NoDup_map_eq id _ _ _ N Ha Hb (eq_trans Ea (eq_sym Eb))).
    + exfalso. apply Eb. now rewrite <- (Mixed a b t).
    + exfalso. apply Ea. now rewrite <- (Mixed b a t).
    + exact (NoDup_present_eq tok _ _ _ _ NT Ha Hb Ta Tb).
Qed.

Lemma tokens_unique_new : tokens_unique new_db.
Proof. split; constructor. Qed.

Lemma present_map_app {A T : Type} (tok : A -> option T) l x :
  tok x = None -> present (map tok (l ++ [x])) = present (map tok l).
Proof.
  intros Hx. induction l as [|a l IH]; simpl; [now rewrite Hx|].
  rewrite IH. reflexivity.
Qed.

Section Fresh.
Context {B : Bcrypt}.

(** With distinct ids, a call whose draw is fresh keeps the session ids and
    the reset tokens of the store distinct. *)
Lemma exec_tokens_unique c db :
  wf db -> tokens_unique db -> fresh c db -> tokens_unique (exec c db).
Proof.
  intros W [NS NR] Fr.
  destruct (exec_effect c db) as [c0|c0 u f Hu Hf|e p salt h He Hh];
    [now split| |].
  - rewrite update_user_touch; [|apply W|now apply in_map]. cbn [snd].
    unfold session_ids, reset_tokens in *.
    destruct c0 as [| |e t| |uid|e t|t [p|] salt]; try discriminate;
      cbn [fields_of] in Hf;
      try (destruct (_hash_password p salt) as [h|x]; [|discriminate]);
      injection Hf as <-; cbn [fresh] in Fr;
      split; unfold session_ids, reset_tokens; cbn [rows].
    all: match goal with
         | |- NoDup (present (map session_id (map (touch _ ?f) _))) =>
             apply (NoDup_present_touch session_id (set_session_id f))
         | |- NoDup (present (map reset_token (map (touch _ ?f) _))) =>
             apply (NoDup_present_touch reset_token (set_reset_token f))
         end; [reflexivity|apply W|assumption|].
    all: cbn; try discriminate; intros ? [= <-]; exact Fr.
  - split; unfold session_ids, reset_tokens; cbn [rows];
      now rewrite present_map_app.
Qed.

Lemma exec_wf c db : wf db -> wf (exec c db).
Proof.
  intros W. destruct (exec_effect c db) as [c0|c0 u f Hu Hf|e p salt h He Hh].
  - assumption.
  - now apply wf_update.
  - now apply wf_add.
Qed.

(** From the empty store, fresh draws lead only to stores with distinct ids,
    emails, session ids and reset tokens. *)
Lemma run_tokens_unique cs db :
  wf db -> tokens_unique db -> fresh_run cs db ->
  wf (run cs db) /\ tokens_unique (run cs db).
Proof.
  revert db. induction cs as [|c cs IH]; intros db W U F; [now split|].
  destruct F as [Fc F]. apply IH; auto using exec_wf, exec_tokens_unique.
Qed.

End Fresh.

(** * Session ids are never empty *)

Lemma update_row_rows i f l l' :
  update_row i f l = Some l' ->
  forall w, In w l' -> In w l \/ exists v, In v l /\ w = apply_fields f v.
Proof.
  revert l'. induction l as [|v l IH]; simpl; [discriminate|].
  intros l'. destruct (Z.eqb (id v) i).
  - intros [= <-] w [<-|Hw]; eauto.
  - destruct (update_row i f l) as [l0|]; [|discriminate].
    intros [= <-] w [<-|Hw]; [auto|].
    destruct (IH l0 eq_refl w Hw) as [H|[x [Hx ->]]]; eauto.
Qed.

Lemma update_user_session_ids i f db s :
  In s (session_ids (snd (update_user i f db))) ->
  In s (session_ids db) \/ set_session_id f = Some (Some s).
Proof.
  unfold update_user.
  destruct (update_row i f (rows db)) as [l|] eqn:U; [|auto].
  cbn [snd]. rewrite !in_session_ids. cbn [rows]. intros [w [Hw Sw]].
  destruct (update_row_rows _ _ _ _ U w Hw) as [H|[v [Hv ->]]]; [eauto|].
  simpl in Sw. destruct (set_session_id f) as [[t|]|]; simpl in Sw.
  - right. congruence.
  - discriminate.
  - eauto.
Qed.

Section Sessions.
Context {B : Bcrypt}.

(** A call whose session draw is not the empty string leaves no user with
    the empty string as session id. *)
Lemma exec_nonempty c db :
  nonempty_draw c ->
  ~ In "" (session_ids db) -> ~ In "" (session_ids (exec c db)).
Proof.
  intros Hc Hdb.
  destruct (exec_effect c db) as [c0|c0 u f Hu Hf|e p salt h He Hh].
  - assumption.
  - intros H. apply update_user_session_ids in H as [H|H]; [contradiction|].
    destruct c0 as [| |e t| |uid|e t|t [p|] salt]; try discriminate;
      cbn [fields_of] in Hf;
      try (destruct (_hash_password p salt) as [h|x]; [|discriminate]);
      injection Hf as <-; try discriminate H.
    injection H as ->. now apply Hc.
  - unfold session_ids. cbn [rows]. now rewrite present_map_app.
Qed.

Lemma run_nonempty cs db :
  Forall nonempty_draw cs ->
  ~ In "" (session_ids db) -> ~ In "" (session_ids (run cs db)).
Proof.
  intros H. revert db. induction H as [|c cs Hc _ IH]; intros db Hdb; simpl;
    [assumption|].
  now apply IH, exec_nonempty.
Qed.

(** C5 (session lookup).  On every store the service reaches from the empty
    one by calls whose session draws are not the empty string (a
    [str(uuid4())] has 36 characters), [get_user_from_session_id] returns
    [None] when the token is [None], when it is the empty string, and when no
    stored [session_id] equals it; for any other token it returns a stored
    user whose [session_id] is that token, and it never raises. *)
Theorem get_user_from_session_id_reachable (cs : list Call) :
  Forall nonempty_draw cs ->
  let db := run cs new_db in
  get_user_from_session_id None db = Ok None
  /\ get_user_from_session_id (Some "") db = Ok None
  /\ (forall sid, ~ In sid (session_ids db) ->
        get_user_from_session_id (Some sid) db = Ok None)
  /\ (forall sid, In sid (session_ids db) ->
        exists u, get_user_from_session_id (Some sid) db = Ok (Some u)
                  /\ In u (rows db) /\ session_id u = Some sid).
Proof.
  intros H db.
  destruct (get_user_from_session_id_held db) as [HN [Hmiss Hheld]].
  split; [exact HN|]. split; [|split; assumption].
  apply Hmiss. apply run_nonempty; [assumption|]. intros [].
Qed.

End Sessions.

(** * The log filter *)

Module FilterFacts.
Import Re Redaction.
Local Open Scope char_scope.
Local Open Scope nat_scope.
Local Open Scope list_scope.

Lemma chars_app (a b : string) : chars (a ++ b)%string = chars a ++ chars b.
Proof. induction a as [|c a IH]; simpl; [reflexivity|]. now rewrite <- IH. Qed.

Lemma plain_cons c l : plain (c :: l) <-> is_special c = false /\ plain l.
Proof.
  unfold plain. simpl. rewrite andb_true_iff, negb_true_iff. tauto.
Qed.

Lemma plain_app l1 l2 : plain (l1 ++ l2) <-> plain l1 /\ plain l2.
Proof. unfold plain. rewrite forallb_app. apply andb_true_iff. Qed.

Lemma plain_no_backslash l : plain l -> ~ In "\" l.
Proof.
  induction l as [|c l IH]; [intros _ []|].
  rewrite plain_cons. intros [Hc Hl] [E|H]; [subst c; discriminate Hc|tauto].
Qed.

Lemma not_special c :
  is_special c = false ->
  Ascii.eqb c "|" = false /\ Ascii.eqb c "." = false /\ is_repeat c = false.
Proof.
  unfold is_special, is_repeat. simpl. intros H.
  repeat (apply orb_false_iff in H; destruct H as [? H]).
  repeat split; repeat (apply orb_false_iff; split); auto.
Qed.

Lemma parse_plain_cons c p :
  is_special c = false ->
  match p with q :: _ => is_repeat q = false | [] => True end ->
  parse (c :: p) = push (Lit c, One) (parse p).
Proof.
  intros Hc Hp. destruct (not_special c Hc) as [Hbar [Hdot _]].
  cbn [parse]. unfold atom_of. rewrite Hbar, Hdot, Hc.
  destruct p as [|q p]; [reflexivity|]. now rewrite Hp.
Qed.

Lemma parse_plain_app l p :
  plain l ->
  match p with q :: _ => is_repeat q = false | [] => True end ->
  parse (l ++ p) = fold_right push (parse p) (lits l).
Proof.
  induction l as [|c l IH]; intros Hl Hp; [reflexivity|].
  apply plain_cons in Hl as [Hc Hl]. cbn [app lits map fold_right].
  rewrite parse_plain_cons; [now rewrite IH|assumption|].
  destruct l as [|c' l]; [assumption|].
  apply plain_cons in Hl as [Hc' _]. apply (not_special c' Hc').
Qed.

Lemma push_all l b bs :
  fold_right push (Some (b :: bs)) (lits l) = Some ((lits l ++ b) :: bs).
Proof. induction l as [|c l IH]; simpl; [reflexivity|]. now rewrite IH. Qed.

(** The pattern [filter_datum] builds from a plain field and separator. *)
Lemma parse_field_pattern field sep :
  plain field -> plain sep ->
  parse (field ++ "=" :: "." :: "*" :: "?" :: sep)
  = Some [lits field ++ (Lit "=", One) :: (Dot, Star false) :: lits sep].
Proof.
  intros Hf Hs.
  rewrite parse_plain_app by (assumption || reflexivity).
  rewrite parse_plain_cons by reflexivity.
  replace (parse ("." :: "*" :: "?" :: sep))
    with (push (Dot, Star false) (parse sep)) by reflexivity.
  rewrite <- (app_nil_r sep) at 1.
  rewrite parse_plain_app by (assumption || exact I).
  cbn [parse]. rewrite push_all, app_nil_r. cbn [push]. apply push_all.
Qed.

Lemma expand_template_plain t : ~ In "\" t -> expand_template t = Some t.
Proof.
  induction t as [|c t IH]; [reflexivity|]. intros H. cbn [expand_template].
  destruct (Ascii.eqb_spec c "\") as [->|_]; [exfalso; apply H; now left|].
  rewrite IH; [reflexivity|]. intros H'. apply H. now right.
Qed.

Section Matching.
Variable R : Type.
Variable k : list ascii -> option R.

Lemma match_lits_app l b s :
  match_items R (lits l ++ b) k (l ++ s) = match_items R b k s.
Proof.
  induction l as [|c l IH]; simpl; [reflexivity|]. now rewrite Ascii.eqb_refl.
Qed.

Lemma match_lits_none l b s :
  (forall s', s <> l ++ s') -> match_items R (lits l ++ b) k s = None.
Proof.
  revert s. induction l as [|c l IH]; intros s H.
  - now destruct (H s).
  - destruct s as [|d s]; simpl; [reflexivity|].
    destruct (Ascii.eqb_spec d c) as [->|_]; [|reflexivity].
    apply IH. intros s' ->. now apply (H s').
Qed.

Lemma star_lazy a next s :
  star R a false next s
  = orelse (next s)
      match s with
      | c :: s' => if atom_matches a c then star R a false next s' else None
      | [] => None
      end.
Proof. destruct s; reflexivity. Qed.

End Matching.

Lemma prefix_dec (l s : list ascii) :
  (exists s', s = l ++ s') \/ (forall s', s <> l ++ s').
Proof.
  revert s. induction l as [|c l IH]; intros s; [left; now exists s|].
  destruct s as [|d s]; [right; discriminate|].
  destruct (ascii_dec d c) as [->|N].
  - destruct (IH s) as [[s' ->]|H]; [left; now exists s'|].
    right. intros s' [= E]. now apply (H s').
  - right. intros s' [= E _]. contradiction.
Qed.

Lemma match_sep sep s :
  (exists rest, s = sep ++ rest
                /\ match_items _ (lits sep) Some s = Some rest)
  \/ ((forall rest, s <> sep ++ rest)
      /\ match_items _ (lits sep) (@Some (list ascii)) s = None).
Proof.
  rewrite <- (app_nil_r (lits sep)).
  destruct (prefix_dec sep s) as [[rest ->]|H].
  - left. exists rest. now rewrite match_lits_app.
  - right. now rewrite match_lits_none.
Qed.

(** The lazy [.*?] before a literal separator stops at the first separator,
    provided no newline comes before it. *)
Lemma star_until sep s :
  (exists value rest,
      s = value ++ sep ++ rest /\ ~ In newline value
      /\ (forall value' rest', s = value' ++ sep ++ rest' ->
                               List.length value <= List.length value')
      /\ star _ Dot false (match_items _ (lits sep) Some) s = Some rest)
  \/ ((forall value rest, s = value ++ sep ++ rest -> In newline value)
      /\ star _ Dot false (match_items _ (lits sep) Some) s = None).
Proof.
  induction s as [|c s IH].
  - rewrite star_lazy.
    destruct (match_sep sep []) as [[rest [E M]]|[H M]]; rewrite M.
    + left. exists [], rest. repeat split; auto. intros; simpl; lia.
    + right. split; [|reflexivity].
      intros [|? ?] rest E; [|discriminate]. now destruct (H rest).
  - rewrite star_lazy.
    destruct (match_sep sep (c :: s)) as [[rest [E M]]|[H M]]; rewrite M.
    + left. exists [], rest. repeat split; auto. intros; simpl; lia.
    + cbn [orelse atom_matches].
      assert (Hv : forall value rest, c :: s = value ++ sep ++ rest ->
                     exists v, value = c :: v /\ s = v ++ sep ++ rest).
      { intros [|d v] rest E; [now destruct (H rest)|].
        injection E as -> ->. eauto. }
      destruct (Ascii.eqb_spec c newline) as [->|Hc]; cbn [negb].
      * right. split; [|reflexivity]. intros value rest E.
        destruct (Hv _ _ E) as [v [-> _]]. now left.
      * destruct IH as [[value [rest [E [Hn [Hmin Hs]]]]]|[Hnone Hs]].
        -- left. exists (c :: value), rest. subst s. repeat split; auto.
           ++ intros [Hin|Hin]; [now apply Hc|now apply Hn].
           ++ intros value' rest' E'.
              destruct (Hv _ _ E') as [v [-> Ev]]. simpl.
              specialize (Hmin _ _ Ev). lia.
        -- right. split; [|assumption]. intros value rest E.
           destruct (Hv _ _ E) as [v [-> Ev]]. right. eauto.
Qed.

(** *** The substitution loop has rounds enough *)

Lemma orelse_Some {A : Type} (x y : option A) r :
  orelse x y = Some r -> x = Some r \/ y = Some r.
Proof. destruct x; simpl; auto. Qed.

Section Progress.
Variable R : Type.
Variable k : list ascii -> option R.

(** Whatever the matcher returns, the final continuation returned it on an
    input no longer than the one the matcher started from. *)
Lemma star_shrinks a g next :
  (forall s r, next s = Some r ->
               exists s', k s' = Some r /\ List.length s' <= List.length s) ->
  forall s r, star R a g next s = Some r ->
              exists s', k s' = Some r /\ List.length s' <= List.length s.
Proof.
  intros Hn. induction s as [|c s IH]; intros r H.
  - destruct g; simpl in H;
      [|apply orelse_Some in H as [H|H]; [|discriminate]]; eauto.
  - assert (More : (if atom_matches a c then star R a g next s else None)
                   = Some r ->
                   exists s', k s' = Some r
                              /\ List.length s' <= List.length (c :: s)).
    { destruct (atom_matches a c); [|discriminate]. intros H'.
      destruct (IH _ H') as [s' [Hk Hl]]. exists s'. simpl. split; [assumption|lia]. }
    cbn [star] in H. destruct g; apply orelse_Some in H as [H|H]; eauto.
Qed.

Lemma once_shrinks a next :
  (forall s r, next s = Some r ->
               exists s', k s' = Some r /\ List.length s' <= List.length s) ->
  forall s r, once R a next s = Some r ->
              exists s', k s' = Some r /\ List.length s' <= List.length s.
Proof.
  intros Hn [|c s] r H; simpl in H; [discriminate|].
  destruct (atom_matches a c); [|discriminate].
  destruct (Hn _ _ H) as [s' [Hk Hl]]. exists s'. simpl. split; [assumption|lia].
Qed.

Lemma match_items_shrinks b :
  forall s r, match_items R b k s = Some r ->
              exists s', k s' = Some r /\ List.length s' <= List.length s.
Proof.
  induction b as [|[a q] b IH]; intros s r H; [now exists s|].
  cbn [match_items] in H. destruct q as [|g|g|g].
  - exact (once_shrinks a _ IH _ _ H).
  - exact (star_shrinks a g _ IH _ _ H).
  - exact (once_shrinks a _ (star_shrinks a g _ IH) _ _ H).
  - destruct g; apply orelse_Some in H as [H|H];
      eauto using once_shrinks.
Qed.

Lemma match_regex_shrinks r :
  forall s x, match_regex R r k s = Some x ->
              exists s', k s' = Some x /\ List.length s' <= List.length s.
Proof.
  induction r as [|b r IH]; intros s x H; [discriminate|].
  cbn [match_regex] in H. apply orelse_Some in H as [H|H];
    eauto using match_items_shrinks.
Qed.

End Progress.

Lemma match_at_length r adv s rest :
  match_at r adv s = Some rest ->
  List.length rest <= List.length s
  /\ (adv = true -> List.length rest < List.length s).
Proof.
  intros H. apply match_regex_shrinks in H as [s' [Hk Hl]].
  destruct (adv && Nat.eqb (List.length s') (List.length s))%bool eqn:E;
    [discriminate|].
  injection Hk as <-. split; [assumption|]. intros ->. simpl in E.
  apply Nat.eqb_neq in E. lia.
Qed.

Lemma sub_loop_total r repl fuel :
  forall (adv : bool) (s : list ascii),
    2 * List.length s + (if adv then 1 else 2) <= fuel ->
    exists out, sub_loop r repl fuel adv s = Some out.
Proof.
  induction fuel as [|fuel IH]; intros adv s Hf; [destruct adv; lia|].
  cbn [sub_loop]. destruct (match_at r adv s) as [rest|] eqn:M.
  - destruct (match_at_length _ _ _ _ M) as [Hle Hlt].
    destruct (IH (Nat.eqb (List.length rest) (List.length s)) rest) as [out ->];
      [|simpl; eauto].
    destruct (Nat.eqb_spec (List.length rest) (List.length s)) as [E|E].
    + destruct adv; [specialize (Hlt eq_refl)|]; lia.
    + destruct adv; lia.
  - destruct s as [|c s]; [eauto|].
    destruct (IH false s) as [out ->]; [|simpl; eauto].
    simpl in Hf. destruct adv; lia.
Qed.

(** [Re.sub] gives a result whenever the pattern and the template are in
    the fragment. *)
Lemma sub_total pattern repl s r t :
  parse (chars pattern) = Some r ->
  expand_template (chars repl) = Some t ->
  exists out, Re.sub pattern repl s = Some out.
Proof.
  unfold Re.sub, chars. intros -> ->.
  destruct (sub_loop_total r t (2 * List.length (list_ascii_of_string s) + 2)
              false (list_ascii_of_string s)) as [out ->]; [lia|].
  simpl. eauto.
Qed.

Lemma parse_field_regex field sep :
  plain field -> plain sep ->
  parse (field ++ "=" :: "." :: "*" :: "?" :: sep) = Some (field_regex field sep).
Proof.
  intros Hf Hs. rewrite parse_field_pattern by assumption.
  unfold field_regex, lits. now rewrite map_app, <- app_assoc.
Qed.

Section OneField.
Variables field marker sep : list ascii.

Lemma match_at_field s :
  (exists value rest,
      occurrence field sep value rest s
      /\ (forall value' rest', occurrence field sep value' rest' s ->
                               List.length value <= List.length value')
      /\ match_at (field_regex field sep) false s = Some rest)
  \/ ((forall value rest, ~ occurrence field sep value rest s)
      /\ match_at (field_regex field sep) false s = None).
Proof.
  assert (Split : forall x y, field ++ "=" :: x = (field ++ ["="]) ++ y -> x = y).
  { intros x y E. rewrite <- app_assoc in E. apply app_inv_head in E.
    now injection E. }
  unfold match_at, field_regex. cbn [match_regex andb].
  change (fun rest : list ascii => Some rest)
    with (@Some (list ascii)).
  destruct (prefix_dec (field ++ ["="]) s) as [[s' ->]|H].
  - rewrite match_lits_app. cbn [match_items].
    destruct (star_until sep s') as [[value [rest [E [Hn [Hmin M]]]]]|[Hnone M]];
      rewrite M; cbn [orelse].
    + left. exists value, rest. repeat split; auto.
      * rewrite E, <- app_assoc. reflexivity.
      * intros value' rest' [E' _]. symmetry in E'. apply Split in E'.
        eauto.
    + right. split; [|reflexivity]. intros value rest [E Hn].
      symmetry in E. apply Split in E. eauto.
  - right. rewrite match_lits_none by assumption. split; [|reflexivity].
    intros value rest [E _]. apply (H (value ++ sep ++ rest)).
    rewrite E, <- app_assoc. reflexivity.
Qed.

Lemma sub_loop_field fuel s :
  List.length s < fuel ->
  exists out,
    sub_loop (field_regex field sep) (field ++ "=" :: marker ++ sep) fuel false s
    = Some out
    /\ redacted field marker sep s out.
Proof.
  revert s. induction fuel as [|fuel IH]; intros s Hs; [lia|].
  cbn [sub_loop].
  destruct (match_at_field s) as [[value [rest [O [Hmin M]]]]|[Hnone M]];
    rewrite M.
  - assert (Hlen : List.length rest < List.length s).
    { destruct O as [-> _]. rewrite !length_app. simpl.
      rewrite !length_app. lia. }
    replace (Nat.eqb (List.length rest) (List.length s)) with false
      by (symmetry; apply Nat.eqb_neq; lia).
    destruct (IH rest) as [out [-> Hout]]; [lia|].
    exists (field ++ "=" :: marker ++ sep ++ out). split.
    + simpl. now rewrite <- app_assoc, <- app_comm_cons, <- app_assoc.
    + eapply redacted_hit; eauto.
  - destruct s as [|c s].
    + exists []. split; [reflexivity|constructor].
    + destruct (IH s) as [out [-> Hout]]; [simpl in Hs; lia|].
      exists (c :: out). split; [reflexivity|]. now constructor.
Qed.

End OneField.

Lemma sub_field (field redaction separator message : string) :
  plain (chars field) -> plain (chars separator) ->
  ~ In "\" (chars redaction) ->
  exists out,
    Re.sub (field ++ "=.*?" ++ separator) (field ++ "=" ++ redaction ++ separator)
           message = Some out
    /\ redacted (chars field) (chars redaction) (chars separator)
                (chars message) (chars out).
Proof.
  intros Hf Hs Hr. unfold Re.sub. fold (chars message).
  replace (list_ascii_of_string (field ++ "=.*?" ++ separator))
    with (chars field ++ "=" :: "." :: "*" :: "?" :: chars separator)
    by (change list_ascii_of_string with chars; now rewrite !chars_app).
  replace (list_ascii_of_string (field ++ "=" ++ redaction ++ separator))
    with (chars field ++ "=" :: chars redaction ++ chars separator)
    by (change list_ascii_of_string with chars; now rewrite !chars_app).
  rewrite parse_field_regex by assumption.
  rewrite expand_template_plain.
  - destruct (sub_loop_field (chars field) (chars redaction) (chars separator)
                (2 * List.length (chars message) + 2) (chars message))
      as [out [-> Hout]]; [lia|].
    exists (string_of_list_ascii out). split; [reflexivity|].
    unfold chars at 5. now rewrite list_ascii_of_string_of_list_ascii.
  - intros H. apply in_app_or in H as [H|[H|H]].
    + now apply (plain_no_backslash _ Hf).
    + discriminate H.
    + apply in_app_or in H as [H|H]; [contradiction|].
      now apply (plain_no_backslash _ Hs).
Qed.

(** C9, as the code has it.  When the field names and the delimiter contain
    no character of regular-expression syntax and the marker contains no
    backslash, [filter_datum] returns the message in which, for each listed
    field in turn, every occurrence of [field=value<delim>] is rewritten to
    [field=marker<delim>] and everything else is kept; a value is the shortest
    text up to a delimiter and contains no newline. *)
Theorem filter_datum_plain (fields : list string)
    (redaction message separator : string) :
  Forall (fun field => plain (chars field)) fields ->
  plain (chars separator) ->
  ~ In "\" (chars redaction) ->
  exists out,
    filter_datum fields redaction message separator = Some out
    /\ redacted_all (chars redaction) (chars separator) (map chars fields)
                    (chars message) (chars out).
Proof.
  intros Hf Hs Hr. revert message.
  induction Hf as [|field fields Hfield _ IH]; intros message.
  - exists message. split; [reflexivity|constructor].
  - cbn [filter_datum map].
    destruct (sub_field field redaction separator message Hfield Hs Hr)
      as [m1 [-> H1]].
    destruct (IH m1) as [out [-> Hout]].
    exists out. split; [reflexivity|]. econstructor; eauto.
Qed.

End FilterFacts.

(** C9, the claim as written fails: a delimiter or a field name that is
    regular-expression syntax is not taken literally, a value with a line
    break in it is left as it is, a backslash in the marker is read as an
    escape, and a later field is also rewritten inside what an earlier
    rewriting put in. *)
Lemma filter_datum_not_literal :
  filter_datum ["name"] "***" "name=bob.age=3." "." = Some "name=***.ob.age=3."
  /\ filter_datum ["name"] "***" "name=bob.age=3." "." <> Some "name=***.age=3."
  /\ filter_datum ["na.e"] "***" "name=bob;" ";" = Some "na.e=***;"
  /\ filter_datum ["name"] "***" two_lines ";" = Some two_lines
  /\ filter_datum ["name"] "\n" "name=bob;" ";"
     = Some ("name=" ++ String Re.newline ";")
  /\ filter_datum ["a"; "b"] "b=1;" "a=x;" ";" = Some "a=b=b=1;;;".
Proof.
  repeat split; try reflexivity. discriminate.
Qed.

(** * The statements at work on sample data *)

Lemma too_long_short p : too_long p = false <-> short p.
Proof. unfold too_long, short. rewrite Nat.ltb_ge. reflexivity. Qed.

(** The stand-in for bcrypt from 5.0.0 on meets the contract. *)
Lemma toy_bcrypt_spec : BcryptSpec toy_bcrypt.
Proof.
  split; simpl.
  - intros p salt S. apply too_long_short in S. rewrite S. eauto.
  - intros p q salt h Sp Sq. apply too_long_short in Sp, Sq. rewrite Sp, Sq.
    intros [= <-]. eexists. split; [reflexivity|].
    unfold toy_hashpw, toy_checkpw.
    destruct (list_eq_dec byte_eq_dec p q); split; congruence.
  - intros p salt h. destruct (too_long p); [discriminate|].
    intros [= <-]. discriminate.
  - intros p salt h. destruct (too_long p); [discriminate|].
    intros [= <-] H. apply (f_equal (@List.length byte)) in H. simpl in H. lia.
Qed.

Lemma flip_flip b : flip (flip b) = b.
Proof. destruct b; reflexivity. Qed.

Lemma flip_neq b : flip b <> b.
Proof. destruct b; discriminate. Qed.

Lemma map_flip_inj p q : map flip p = map flip q -> p = q.
Proof.
  intros H. apply (f_equal (map flip)) in H. rewrite !map_map in H.
  rewrite !(map_ext _ (fun b => b) flip_flip), !map_id in H. exact H.
Qed.

Lemma firstn_short p : short p -> firstn 72 p = p.
Proof. intros S. now apply firstn_all2. Qed.

(** The stand-in for bcrypt before 5.0.0 meets the contract as well. *)
Lemma old_bcrypt_spec : BcryptSpec old_bcrypt.
Proof.
  split; simpl.
  - eauto.
  - intros p q salt h Sp Sq [= <-]. eexists. split; [reflexivity|].
    unfold old_checkpw, old_hashpw. rewrite removelast_last.
    rewrite (firstn_short _ Sp), (firstn_short _ Sq).
    destruct (list_eq_dec _ _) as [E|E]; split; try congruence.
    intros _. symmetry. now apply map_flip_inj.
  - intros p salt h [= <-]. unfold old_hashpw. now destruct (map flip _).
  - intros p salt h [= <-]. unfold old_hashpw. destruct p as [|b p].
    + discriminate.
    + simpl. intros [= H _]. now apply flip_neq in H.
Qed.

(** The sample history is a history of the service. *)
Lemma reachable_db_5 : @reachable toy_bcrypt db_5 g_5.
Proof. repeat apply reach_call. apply reach_new. Qed.

Lemma NoDup_ids_db_4 : NoDup (ids db_4).
Proof. repeat constructor; simpl; intuition discriminate. Qed.

(** Single use of the reset token ["R1"] in the sample history. *)
Lemma update_password_single_use_witness :
  (NoDup (ids db_4) /\ NoDup (reset_tokens db_4)
   /\ @update_password toy_bcrypt (Some "R1") (Some "pw2") [x03] db_4
      = (Ok tt, db_5))
  /\ exists u h,
       find_user_by (by_reset_token "R1") db_4 = Ok u
       /\ @_hash_password toy_bcrypt "pw2" [x03] = Ok h
       /\ update_user (id u) (mkFields (Some h) None (Some None)) db_4
          = (Ok tt, db_5)
       /\ find_user_by (by_id (id u)) db_5
          = Ok (mkUser (id u) (email u) h (session_id u) None)
       /\ forall password' salt',
            @update_password toy_bcrypt (Some "R1") (Some password') salt' db_5
            = (Raise ValueError, db_5).
Proof.
  assert (H : NoDup (reset_tokens db_4)) by (repeat constructor; simpl; tauto).
  split.
  - repeat split; [apply NoDup_ids_db_4|exact H].
  - apply (@update_password_single_use toy_bcrypt "R1" "pw2" [x03] db_4 db_5);
      [apply NoDup_ids_db_4|exact H|reflexivity].
Defined.

(** The frame of the password reset in the sample history: Eve's row and
    Bob's session ["S1"] are as before. *)
Lemma update_password_frame_witness :
  (NoDup (ids db_4)
   /\ @update_password toy_bcrypt (Some "R1") (Some "pw2") [x03] db_4
      = (Ok tt, db_5))
  /\ exists u h,
       find_user_by (by_reset_token "R1") db_4 = Ok u
       /\ @_hash_password toy_bcrypt "pw2" [x03] = Ok h
       /\ rows db_5
          = map (fun v =>
                   if Z.eqb (id v) (id u)
                   then mkUser (id v) (email v) h (session_id v) None
                   else v) (rows db_4)
       /\ next_id db_5 = next_id db_4
       /\ map id (rows db_5) = map id (rows db_4)
       /\ map email (rows db_5) = map email (rows db_4)
       /\ map session_id (rows db_5) = map session_id (rows db_4)
       /\ (forall v, In v (rows db_4) -> id v <> id u -> In v (rows db_5))
       /\ (forall sid w,
             get_user_from_session_id (Some sid) db_4 = Ok (Some w) ->
             exists w',
               get_user_from_session_id (Some sid) db_5 = Ok (Some w')
               /\ id w' = id w /\ email w' = email w
               /\ session_id w' = session_id w).
Proof.
  split.
  - split; [apply NoDup_ids_db_4|reflexivity].
  - apply (@update_password_frame toy_bcrypt "R1" "pw2" [x03] db_4 db_5);
      [apply NoDup_ids_db_4|reflexivity].
Defined.

(** The round trip of Bob's session ["S1"]. *)
Lemma session_round_trip_witness :
  (NoDup (ids db_2) /\ ~ In "S1" (session_ids db_2)
   /\ find_user_by (by_email "bob@x.io") db_2 = Ok bob)
  /\ exists db1 db2 u1,
       create_session "bob@x.io" "S1" db_2 = (Ok (Some "S1"), db1)
       /\ u1 = mkUser (id bob) (email bob) (hashed_password bob) (Some "S1")
                      (reset_token bob)
       /\ find_user_by (by_email "bob@x.io") db1 = Ok u1
       /\ get_user_from_session_id (Some "S1") db1 = Ok (Some u1)
       /\ destroy_session (Some (id u1)) db1 = (Ok tt, db2)
       /\ get_user_from_session_id (Some "S1") db2 = Ok None.
Proof.
  assert (N : NoDup (ids db_2)) by (repeat constructor; simpl; intuition discriminate).
  assert (F : ~ In "S1" (session_ids db_2)) by (simpl; tauto).
  split.
  - repeat split; [exact N|exact F].
  - apply (session_round_trip "bob@x.io" "S1" db_2 bob);
      [exact N|exact F|reflexivity].
Defined.

(** Bob logs in with the password set by the reset. *)
Lemma valid_login_correct_witness :
  (@reachable toy_bcrypt db_5 g_5
   /\ short (list_byte_of_string "pw2")
   /\ g_5 "bob@x.io" = Some "pw2")
  /\ (@valid_login toy_bcrypt "bob@x.io" "pw2" db_5 = Ok true
      <-> In "bob@x.io" (emails db_5) /\ g_5 "bob@x.io" = Some "pw2")
  /\ exists b, @valid_login toy_bcrypt "bob@x.io" "pw2" db_5 = Ok b.
Proof.
  assert (S : short (list_byte_of_string "pw2")) by (unfold short; simpl; lia).
  split; [split; [apply reachable_db_5|split; [exact S|reflexivity]]|].
  destruct (@valid_login_correct toy_bcrypt toy_bcrypt_spec "bob@x.io" "pw2"
              db_5 g_5 reachable_db_5) as [_ H].
  apply H; [exact S|]. intros q Hq. vm_compute in Hq. injection Hq as <-.
  exact S.
Defined.

(** C3, the claim as written fails.  With bcrypt before release 5.0.0, Bob
    registers with a password of 73 bytes and [valid_login] then returns
    [True] for another password that shares its first 72 bytes.  With bcrypt
    from release 5.0.0 on, [valid_login] for Bob with a password of 73 bytes
    raises [ValueError] and returns nothing. *)
Lemma valid_login_long_password :
  (@reachable old_bcrypt db_73 g_73
   /\ g_73 "bob@x.io" = Some pw_73b
   /\ pw_73c <> pw_73b
   /\ @valid_login old_bcrypt "bob@x.io" pw_73c db_73 = Ok true)
  /\ (@reachable toy_bcrypt db_1 g_1
      /\ In "bob@x.io" (emails db_1)
      /\ @valid_login toy_bcrypt "bob@x.io" pw_73c db_1 = Raise ValueError).
Proof.
  split.
  - split; [apply reach_call, reach_new|].
    split; [reflexivity|]. split; [discriminate|reflexivity].
  - split; [apply reach_call, reach_new|].
    split; [now left|reflexivity].
Qed.

(** Bob's stored hash after registration. *)
Lemma hashed_password_never_plain_witness :
  (@reachable toy_bcrypt db_1 g_1 /\ In bob (rows db_1))
  /\ hashed_password bob <> []
  /\ exists p salt,
       g_1 (email bob) = Some p
       /\ @_hash_password toy_bcrypt p salt = Ok (hashed_password bob)
       /\ hashed_password bob <> encode p.
Proof.
  split.
  - split; [apply reach_call, reach_new|now left].
  - apply (@hashed_password_never_plain toy_bcrypt toy_bcrypt_spec db_1 g_1 bob).
    + apply reach_call, reach_new.
    + now left.
Defined.

(** A line with two redacted fields and one kept. *)
Lemma filter_datum_plain_witness :
  (Forall (fun field => Redaction.plain (chars field)) ["name"; "email"]
   /\ Redaction.plain (chars ";")
   /\ ~ In "\"%char (chars "***"))
  /\ exists out,
       filter_datum ["name"; "email"] "***" "name=bob;email=b@x.io;age=3;" ";"
       = Some out
       /\ Redaction.redacted_all (chars "***") (chars ";")
            (map chars ["name"; "email"])
            (chars "name=bob;email=b@x.io;age=3;") (chars out).
Proof.
  assert (H : ~ In "\"%char (chars "***")) by (simpl; intuition discriminate).
  split.
  - repeat split; [repeat constructor|exact H].
  - apply (FilterFacts.filter_datum_plain ["name"; "email"] "***"
             "name=bob;email=b@x.io;age=3;" ";");
      [repeat constructor|reflexivity|exact H].
Defined.

(** Bob registers once, and is stored with the hash of the bytes of his
    password; after the sample history a second registration of his email is
    refused. *)
Lemma register_user_unique_witness :
  @register_user toy_bcrypt "bob@x.io" "pw1" [x01] new_db
  = (Ok (mkUser 1 "bob@x.io" [x24; x01; x70; x77; x31] None None),
     mkDB [mkUser 1 "bob@x.io" [x24; x01; x70; x77; x31] None None] 2)
  /\ @register_user toy_bcrypt "bob@x.io" "pw2" [x02] db_5
     = (Raise ValueError, db_5).
Proof.
  destruct (@register_user_unique toy_bcrypt "bob@x.io" "pw1" [x01] new_db)
    as [_ [Hfresh [_ Hlater]]].
  split.
  - apply (Hfresh (fun H : In "bob@x.io" (emails new_db) => H)
                  [x24; x01; x70; x77; x31] eq_refl).
  - exact (Hlater bob eq_refl [c_eve; c_login; c_token; c_reset] "pw2" [x02]).
Defined.

(** C2, the claim as written fails with bcrypt from release 5.0.0 on: no
    user has the email, and yet the call raises [ValueError] and adds nobody,
    because the password has 73 bytes. *)
Lemma register_user_long_password :
  ~ In "bob@x.io" (emails new_db)
  /\ List.length (list_byte_of_string pw_73b) = 73%nat
  /\ @register_user toy_bcrypt "bob@x.io" pw_73b [x01] new_db
     = (Raise ValueError, new_db)
  /\ ~ (forall e password salt db,
          ~ In e (emails db) ->
          exists user db',
            @register_user toy_bcrypt e password salt db = (Ok user, db')).
Proof.
  split; [intros []|]. split; [reflexivity|]. split; [reflexivity|].
  intros H.
  destruct (H "bob@x.io" pw_73b [x01] new_db (fun I => I)) as [user [db' E]].
  discriminate E.
Qed.

(** * Further properties of the service *)

Lemma find_app {A : Type} (P : A -> bool) (l1 l2 : list A) :
  find P (l1 ++ l2)
  = match find P l1 with Some x => Some x | None => find P l2 end.
Proof.
  induction l1 as [|x l1 IH]; simpl; [reflexivity|]. now destruct (P x).
Qed.

Lemma found_by_email_touch e i f db u :
  find_user_by (by_email e) db = Ok u ->
  find_user_by (by_email e) (mkDB (map (touch i f) (rows db)) (next_id db))
  = Ok (touch i f u).
Proof.
  unfold find_user_by. cbn [rows]. rewrite find_map_keep.
  - destruct (find (matches (by_email e)) (rows db)); [|discriminate].
    now intros [= ->].
  - intros x. simpl. now rewrite touch_email.
Qed.

Lemma find_holder (k : Key) i f db u :
  NoDup (ids db) -> In u (rows db) -> id u = i ->
  matches k (touch i f u) = true ->
  (forall v, In v (rows db) -> id v <> i -> matches k v = false) ->
  find_user_by k (mkDB (map (touch i f) (rows db)) (next_id db))
  = Ok (touch i f u).
Proof.
  intros N Hu Hi Mu Others. unfold find_user_by. cbn [rows].
  rewrite (find_only _ _ (touch i f u)); auto using in_map.
  intros y Hy My. apply in_map_iff in Hy as [v [<- Hv]].
  destruct (Z.eqb_spec (id v) i) as [E|E].
  - now rewrite (NoDup_map_eq id _ _ _ N Hv Hu (eq_trans E (eq_sym Hi))).
  - rewrite (touch_other _ _ _ E) in My. rewrite (Others v Hv E) in My.
    discriminate.
Qed.

Lemma not_held_session t db v :
  ~ In t (session_ids db) -> In v (rows db) ->
  matches (by_session_id t) v = false.
Proof.
  intros F Hv. destruct (matches (by_session_id t) v) eqn:M; [|reflexivity].
  exfalso. apply F, in_session_ids. exists v. split; [assumption|].
  now apply opt_string_eqb_true.
Qed.

Lemma not_held_reset t db v :
  ~ In t (reset_tokens db) -> In v (rows db) ->
  matches (by_reset_token t) v = false.
Proof.
  intros F Hv. destruct (matches (by_reset_token t) v) eqn:M; [|reflexivity].
  exfalso. apply F, in_reset_tokens. exists v. split; [assumption|].
  now apply opt_string_eqb_true.
Qed.

Lemma create_session_found e t db u :
  NoDup (ids db) -> find_user_by (by_email e) db = Ok u ->
  create_session e t db
  = (Ok (Some t),
     mkDB (map (touch (id u) (mkFields None (Some (Some t)) None)) (rows db))
          (next_id db)).
Proof.
  intros N F. unfold create_session, _generate_uuid. rewrite F.
  rewrite update_user_touch; eauto using found_id_in.
Qed.

Lemma get_reset_password_token_found e t db u :
  NoDup (ids db) -> find_user_by (by_email e) db = Ok u ->
  get_reset_password_token e t db
  = (Ok t,
     mkDB (map (touch (id u) (mkFields None None (Some (Some t)))) (rows db))
          (next_id db)).
Proof.
  intros N F. unfold get_reset_password_token, _generate_uuid. rewrite F.
  rewrite update_user_touch; eauto using found_id_in.
Qed.

(** X4.  Logging in twice: in a store with distinct ids, after
    [create_session] with the draw [t1] and then with the draw [t2] for the
    same registered email (both fresh, and different), the first session id
    leads to no user any more and the second leads to the user. *)
Theorem create_session_overwrites (e t1 t2 : string) (db : DB) (u : User) :
  NoDup (ids db) ->
  ~ In t1 (session_ids db) -> ~ In t2 (session_ids db) -> t1 <> t2 ->
  find_user_by (by_email e) db = Ok u ->
  let db1 := snd (create_session e t1 db) in
  let db2 := snd (create_session e t2 db1) in
  create_session e t1 db = (Ok (Some t1), db1)
  /\ create_session e t2 db1 = (Ok (Some t2), db2)
  /\ get_user_from_session_id (Some t1) db2 = Ok None
  /\ get_user_from_session_id (Some t2) db2
     = Ok (Some (mkUser (id u) (email u) (hashed_password u) (Some t2)
                        (reset_token u))).
Proof.
  intros N F1 F2 Ne F.
  pose proof (find_user_by_Ok _ _ _ F) as [Hu _].
  rewrite (create_session_found _ _ _ _ N F). cbn [snd].
  set (f1 := mkFields None (Some (Some t1)) None).
  set (db1 := mkDB (map (touch (id u) f1) (rows db)) (next_id db)).
  assert (N1 : NoDup (ids db1)) by (unfold ids, db1; cbn [rows]; now rewrite map_touch_ids).
  assert (Fe : find_user_by (by_email e) db1 = Ok (touch (id u) f1 u))
    by now apply found_by_email_touch.
  rewrite (create_session_found _ _ _ _ N1 Fe). cbn [snd]. rewrite touch_id.
  set (f2 := mkFields None (Some (Some t2)) None).
  assert (T12 : forall v, touch (id u) f2 (touch (id u) f1 v) = touch (id u) f2 v).
  { intros v. unfold touch. destruct (Z.eqb_spec (id v) (id u)) as [E|E].
    - simpl. rewrite E, Z.eqb_refl. reflexivity.
    - destruct (Z.eqb_spec (id v) (id u)); [contradiction|reflexivity]. }
  assert (R2 : mkDB (map (touch (id u) f2) (rows db1)) (next_id db1)
               = mkDB (map (touch (id u) f2) (rows db)) (next_id db)).
  { cbn [rows next_id db1]. f_equal. rewrite map_map. apply map_ext.
    exact T12. }
  assert (Hu2 : touch (id u) f2 u
                = mkUser (id u) (email u) (hashed_password u) (Some t2)
                         (reset_token u)).
  { unfold touch. now rewrite Z.eqb_refl. }
  rewrite R2. unfold get_user_from_session_id. repeat split.
  - unfold find_user_by. cbn [rows].
    rewrite find_none_all; [reflexivity|].
    intros y Hy. apply in_map_iff in Hy as [v [<- Hv]].
    destruct (Z.eqb_spec (id v) (id u)) as [E|E].
    + rewrite (NoDup_map_eq id _ _ _ N Hv Hu E), Hu2. simpl.
      apply String.eqb_neq. congruence.
    + rewrite (touch_other _ _ _ E). now apply (not_held_session t1 db).
  - rewrite <- Hu2.
    rewrite (find_holder (by_session_id t2) (id u) f2 db u); auto.
    + rewrite Hu2. simpl. apply String.eqb_refl.
    + intros v Hv _. now apply (not_held_session t2 db).
Qed.

(** X5.  Logging in and out leaves credentials alone: whatever the store,
    [create_session] and [destroy_session] change no id, email, password hash
    or reset token, add or remove no user, and [create_session] for an email
    nobody has returns [None] with the store untouched. *)
Theorem sessions_leave_credentials (e t : string) (uid : option Z) (db : DB) :
  map logged_out (rows (snd (create_session e t db))) = map logged_out (rows db)
  /\ map logged_out (rows (snd (destroy_session uid db)))
     = map logged_out (rows db)
  /\ (~ In e (emails db) -> create_session e t db = (Ok None, db)).
Proof.
  assert (K : forall i f, set_hashed_password f = None ->
                set_reset_token f = None ->
                map logged_out (rows (snd (update_user i f db)))
                = map logged_out (rows db)).
  { intros i f Hh Hr. unfold update_user.
    destruct (update_row i f (rows db)) as [l|] eqn:U; [|reflexivity].
    cbn [snd rows]. revert l U.
    induction (rows db) as [|v l0 IH]; intros l U; simpl in U; [discriminate|].
    destruct (Z.eqb (id v) i).
    - injection U as <-. simpl. f_equal. unfold logged_out, apply_fields.
      simpl. now rewrite Hh, Hr.
    - destruct (update_row i f l0) as [l1|]; [|discriminate].
      injection U as <-. simpl. f_equal. now apply IH. }
  repeat split.
  - unfold create_session.
    destruct (find_user_by_cases (by_email e) db) as [[v F]|F]; rewrite F;
      [|reflexivity].
    set (f := mkFields None (Some (Some (_generate_uuid t))) None).
    replace (snd _) with (snd (update_user (id v) f db))
      by (destruct (update_user (id v) f db) as [[?|?] ?]; reflexivity).
    now apply K.
  - destruct uid as [uid|]; [|reflexivity]. unfold destroy_session.
    destruct (find_user_by_cases (by_id uid) db) as [[v F]|F]; rewrite F;
      [|reflexivity].
    set (f := mkFields None (Some None) None).
    replace (snd _) with (snd (update_user (id v) f db))
      by (destruct (update_user (id v) f db) as [[?|[]] ?]; reflexivity).
    now apply K.
  - intros H. unfold create_session.
    now rewrite (not_in_emails_missing _ _ H).
Qed.

Section Resets.
Context {B : Bcrypt}.

(** X3.  Asking twice for a reset token: in a store with distinct ids, after
    [get_reset_password_token] with the draw [t1] and then with the draw [t2]
    for the same registered email (both fresh, and different), the user holds
    the second token, and [update_password] with the first token raises
    [ValueError] and changes nothing. *)
Theorem reset_token_replaced (e t1 t2 : string) (db : DB) (u : User) :
  NoDup (ids db) ->
  ~ In t1 (reset_tokens db) -> ~ In t2 (reset_tokens db) -> t1 <> t2 ->
  find_user_by (by_email e) db = Ok u ->
  let db1 := snd (get_reset_password_token e t1 db) in
  let db2 := snd (get_reset_password_token e t2 db1) in
  get_reset_password_token e t1 db = (Ok t1, db1)
  /\ get_reset_password_token e t2 db1 = (Ok t2, db2)
  /\ find_user_by (by_reset_token t2) db2
     = Ok (mkUser (id u) (email u) (hashed_password u) (session_id u) (Some t2))
  /\ forall p salt,
       update_password (Some t1) (Some p) salt db2 = (Raise ValueError, db2).
Proof.
  intros N F1 F2 Ne F.
  pose proof (find_user_by_Ok _ _ _ F) as [Hu _].
  rewrite (get_reset_password_token_found _ _ _ _ N F). cbn [snd].
  set (f1 := mkFields None None (Some (Some t1))).
  set (db1 := mkDB (map (touch (id u) f1) (rows db)) (next_id db)).
  assert (N1 : NoDup (ids db1)) by (unfold ids, db1; cbn [rows]; now rewrite map_touch_ids).
  assert (Fe : find_user_by (by_email e) db1 = Ok (touch (id u) f1 u))
    by now apply found_by_email_touch.
  rewrite (get_reset_password_token_found _ _ _ _ N1 Fe). cbn [snd].
  rewrite touch_id.
  set (f2 := mkFields None None (Some (Some t2))).
  assert (T12 : forall v, touch (id u) f2 (touch (id u) f1 v) = touch (id u) f2 v).
  { intros v. unfold touch. destruct (Z.eqb_spec (id v) (id u)) as [E|E].
    - simpl. rewrite E, Z.eqb_refl. reflexivity.
    - destruct (Z.eqb_spec (id v) (id u)); [contradiction|reflexivity]. }
  assert (R2 : mkDB (map (touch (id u) f2) (rows db1)) (next_id db1)
               = mkDB (map (touch (id u) f2) (rows db)) (next_id db)).
  { cbn [rows next_id db1]. f_equal. rewrite map_map. apply map_ext.
    exact T12. }
  assert (Hu2 : touch (id u) f2 u
                = mkUser (id u) (email u) (hashed_password u) (session_id u)
                         (Some t2)).
  { unfold touch. now rewrite Z.eqb_refl. }
  rewrite R2. repeat split.
  - rewrite <- Hu2. apply find_holder; auto.
    + rewrite Hu2. simpl. apply String.eqb_refl.
    + intros v Hv _. now apply (not_held_reset t2 db).
  - intros p salt. unfold update_password, find_user_by. cbn [rows].
    rewrite find_none_all; [reflexivity|].
    intros y Hy. apply in_map_iff in Hy as [v [<- Hv]].
    destruct (Z.eqb_spec (id v) (id u)) as [E|E].
    + rewrite (NoDup_map_eq id _ _ _ N Hv Hu E), Hu2. simpl.
      apply String.eqb_neq. congruence.
    + rewrite (touch_other _ _ _ E). now apply (not_held_reset t1 db).
Qed.

(** X6.  From the empty store, a history whose draws are fresh leads to a
    store with distinct ids below the next serial id, distinct emails,
    distinct session ids and distinct reset tokens. *)
Theorem fresh_history_invariant (cs : list Call) :
  fresh_run cs new_db ->
  wf (run cs new_db) /\ tokens_unique (run cs new_db).
Proof.
  intros F. apply run_tokens_unique; auto using wf_new, tokens_unique_new.
Qed.

Lemma found_after_add e h db :
  ~ In e (emails db) ->
  find_user_by (by_email e)
    (mkDB (rows db ++ [mkUser (next_id db) e h None None]) (next_id db + 1))
  = Ok (mkUser (next_id db) e h None None).
Proof.
  intros H. unfold find_user_by. cbn [rows]. rewrite find_app.
  assert (F : find (matches (by_email e)) (rows db) = None).
  { pose proof (not_in_emails_missing _ _ H) as F. unfold find_user_by in F.
    now destruct (find (matches (by_email e)) (rows db)). }
  rewrite F. simpl. now rewrite String.eqb_refl.
Qed.

Context {L : BcryptSpec B}.

(** X1.  Register, then log in, with passwords of at most 72 bytes, on which
    bcrypt is taken to keep its contract (hashing returns a hash, and a
    password verifies exactly against the hash made of it): [register_user]
    with an email no user has and such a password adds the user with the hash
    bcrypt returned, and [valid_login] for that email with such a password is
    [True] for the registered password and [False] for every other. *)
Theorem register_then_login (e p p' : string) (salt : list byte) (db : DB) :
  ~ In e (emails db) ->
  short (list_byte_of_string p) ->
  short (list_byte_of_string p') ->
  exists h,
    hashpw (list_byte_of_string p) salt = Ok h
    /\ register_user e p salt db
       = (Ok (mkUser (next_id db) e h None None),
          mkDB (rows db ++ [mkUser (next_id db) e h None None])
               (next_id db + 1))
    /\ valid_login e p' (snd (register_user e p salt db))
       = Ok (String.eqb p' p).
Proof.
  intros H Sp Sp'. destruct (hashpw_short _ salt Sp) as [h Hh].
  exists h. split; [exact Hh|].
  rewrite (register_user_fresh _ _ _ _ h) by assumption.
  split; [reflexivity|]. cbn [snd].
  now apply (valid_login_hash _ _ _ salt _ _ (found_after_add _ h _ H)).
Qed.

(** X2.  The reset flow, with passwords of at most 72 bytes, on which bcrypt
    is taken to keep its contract: in a store with distinct ids, for a
    registered email and a fresh draw, [update_password] with the token that
    [get_reset_password_token] returned and such a new password succeeds, the
    user holds the hash bcrypt returned, keeps the session and holds no reset
    token, and [valid_login] for the email with such a password is [True] for
    the new password and [False] for every other, the old one included. *)
Theorem reset_then_login (e t p p' : string) (salt : list byte) (db : DB)
    (u : User) :
  NoDup (ids db) ->
  ~ In t (reset_tokens db) ->
  find_user_by (by_email e) db = Ok u ->
  short (list_byte_of_string p) ->
  short (list_byte_of_string p') ->
  let db1 := snd (get_reset_password_token e t db) in
  let db2 := snd (update_password (Some t) (Some p) salt db1) in
  exists h,
    hashpw (list_byte_of_string p) salt = Ok h
    /\ get_reset_password_token e t db = (Ok t, db1)
    /\ update_password (Some t) (Some p) salt db1 = (Ok tt, db2)
    /\ find_user_by (by_email e) db2
       = Ok (mkUser (id u) (email u) h (session_id u) None)
    /\ valid_login e p' db2 = Ok (String.eqb p' p).
Proof.
  intros N Fr F Sp Sp'. destruct (hashpw_short _ salt Sp) as [h Hh].
  exists h. split; [exact Hh|].
  pose proof (find_user_by_Ok _ _ _ F) as [Hu _].
  rewrite (get_reset_password_token_found _ _ _ _ N F). cbn [snd].
  set (f1 := mkFields None None (Some (Some t))).
  set (db1 := mkDB (map (touch (id u) f1) (rows db)) (next_id db)).
  assert (N1 : NoDup (ids db1)) by (unfold ids, db1; cbn [rows]; now rewrite map_touch_ids).
  assert (Ft : find_user_by (by_reset_token t) db1 = Ok (touch (id u) f1 u)).
  { apply find_holder; auto.
    - unfold touch. rewrite Z.eqb_refl. simpl. apply String.eqb_refl.
    - intros v Hv _. now apply (not_held_reset t db). }
  rewrite (update_password_found _ _ _ _ _ h N1 Ft Hh). cbn [snd].
  rewrite touch_id.
  assert (Fe : find_user_by (by_email e)
                 (mkDB (map (touch (id u) (reset_fields h)) (rows db1))
                       (next_id db1))
               = Ok (mkUser (id u) (email u) h (session_id u) None)).
  { rewrite (found_by_email_touch e _ _ db1 (touch (id u) f1 u)).
    - unfold touch. cbn. rewrite Z.eqb_refl. cbn. rewrite Z.eqb_refl.
      reflexivity.
    - now apply found_by_email_touch. }
  repeat split; [exact Fe|].
  now apply (valid_login_hash _ _ _ salt _ _ Fe).
Qed.

End Resets.

(** * The log filter on lines of key=value pairs *)

Module LineFacts.
Import Re Redaction Line.
Local Open Scope char_scope.
Local Open Scope nat_scope.
Local Open Scope list_scope.

Section OneField.
Variables field marker delim : list ascii.

Lemma occurrence_nonempty value rest : ~ occurrence field delim value rest [].
Proof. intros [E _]. now destruct field. Qed.

Lemma same_length_split {A : Type} (a b x y : list A) :
  a ++ x = b ++ y -> List.length a = List.length b -> a = b /\ x = y.
Proof.
  revert b. induction a as [|c a IH]; intros [|c' b] E L; try discriminate.
  - now split.
  - injection E as -> E. injection L as L. destruct (IH _ E L) as [-> ->].
    now split.
Qed.

(** The rewriting of a message is determined by the message. *)
Lemma redacted_unique s out1 :
  redacted field marker delim s out1 ->
  forall out2, redacted field marker delim s out2 -> out1 = out2.
Proof.
  induction 1 as [|s value rest out O Hmin _ IH|c s out Hno _ IH];
    intros out2 H2.
  - inversion H2 as [|s' value' rest' out' O' _ _|]; subst; [reflexivity|].
    now destruct (occurrence_nonempty _ _ O').
  - inversion H2 as [|s' value' rest' out' O' Hmin' R'|c s' out' Hno' _];
      subst.
    + now destruct (occurrence_nonempty _ _ O).
    + assert (L : List.length value = List.length value').
      { apply Nat.le_antisymm; eauto. }
      destruct O as [E _], O' as [E' _]. rewrite E in E'.
      apply app_inv_head in E'. injection E' as E'.
      destruct (same_length_split _ _ _ _ E' L) as [_ E2].
      apply app_inv_head in E2. subst rest'. now rewrite (IH _ R').
    + now destruct (Hno' _ _ O).
  - inversion H2 as [|s' value' rest' out' O' _ _|c' s' out' _ R']; subst.
    + now destruct (Hno _ _ O').
    + now rewrite (IH _ R').
Qed.

Hypothesis delim_nonempty : delim <> [].
Hypothesis delim_no_eq : ~ In "=" delim.
Hypothesis field_no_eq : ~ In "=" field.
Hypothesis field_off_delim : forall c, In c field -> ~ In c delim.

Lemma first_eq_split (a b x y : list ascii) :
  ~ In "=" a -> ~ In "=" b -> a ++ "=" :: x = b ++ "=" :: y -> a = b /\ x = y.
Proof.
  revert b. induction a as [|c a IH]; intros [|c' b] Ha Hb E; simpl in *.
  - injection E as ->. now split.
  - injection E as <- _. tauto.
  - injection E as -> _. tauto.
  - injection E as -> E. destruct (IH b) as [-> ->]; tauto.
Qed.

Lemma occurrence_at_key k x value rest :
  ~ In "=" k -> occurrence field delim value rest (k ++ "=" :: x) ->
  k = field /\ x = value ++ delim ++ rest.
Proof. intros Hk [E _]. now apply first_eq_split in E. Qed.

Lemma gap_no_occurrence j tl value rest :
  ~ In "=" j -> (exists c, In c j /\ In c delim) -> line_like tl ->
  ~ occurrence field delim value rest (j ++ tl).
Proof.
  intros Hj [c [Hc Hd]] [->|[k [x [Hk ->]]]] O.
  - destruct O as [E _]. apply Hj. rewrite app_nil_r in E. rewrite E.
    apply in_or_app. right. now left.
  - rewrite app_assoc in O. apply occurrence_at_key in O as [E _].
    + apply (field_off_delim c); [|assumption]. rewrite <- E.
      apply in_or_app. now left.
    + intros H. apply in_app_or in H as [H|H]; tauto.
Qed.

Lemma scan_delim d1 tl out :
  (forall c, In c d1 -> In c delim) -> line_like tl ->
  redacted field marker delim tl out ->
  redacted field marker delim (d1 ++ tl) (d1 ++ out).
Proof.
  intros Hd Htl R. induction d1 as [|c d1 IH]; [assumption|].
  simpl. constructor.
  - intros value rest. apply (gap_no_occurrence (c :: d1)).
    + intros H. apply delim_no_eq, Hd. assumption.
    + exists c. split; [now left|]. apply Hd. now left.
    + assumption.
  - apply IH. intros c' H. apply Hd. now right.
Qed.

Lemma scan_junk w tl out :
  ~ In "=" w -> line_like tl ->
  redacted field marker delim tl out ->
  redacted field marker delim (w ++ delim ++ tl) (w ++ delim ++ out).
Proof.
  intros Hw Htl R. induction w as [|c w IH].
  - simpl. apply scan_delim; auto.
  - simpl. constructor.
    + intros value rest. rewrite app_comm_cons, app_assoc.
      apply gap_no_occurrence.
      * intros H. apply in_app_or in H as [H|H]; tauto.
      * destruct delim as [|z d'] eqn:D; [contradiction|].
        exists z. split; [|now left]. apply in_or_app. right. now left.
      * assumption.
    + apply IH. intros H. apply Hw. now right.
Qed.

Lemma value_minimal v rest value' rest' :
  (forall c, In c v -> ~ In c delim) ->
  v ++ delim ++ rest = value' ++ delim ++ rest' ->
  List.length v <= List.length value'.
Proof.
  revert value'. induction v as [|c v IH]; intros value' Hv E; [simpl; lia|].
  destruct value' as [|c' value'].
  - exfalso. destruct delim as [|z d'] eqn:D; [contradiction|].
    simpl in E. injection E as -> _. apply (Hv z); now left.
  - injection E as _ E. simpl. apply le_n_S. apply IH; [|assumption].
    intros x Hx. apply Hv. now right.
Qed.

Lemma ends_with_self k : ends_with k k = true.
Proof. destruct k; simpl; now rewrite ?Ascii.eqb_refl, ?String.eqb_refl. Qed.

(** One pair: the value is replaced exactly when the key ends with the
    field. *)
Lemma scan_key (f : string) (k : string) v tl out :
  chars f = field ->
  ~ In "=" (chars k) ->
  ~ In "=" v -> ~ In newline v -> (forall c, In c v -> ~ In c delim) ->
  line_like tl ->
  redacted field marker delim tl out ->
  redacted field marker delim
    (chars k ++ "=" :: v ++ delim ++ tl)
    (chars k ++ "=" :: (if ends_with k f then marker else v) ++ delim ++ out).
Proof.
  intros Hf Hk Hv Hn Hd Htl R.
  induction k as [|c k IH].
  - destruct (String.eqb_spec EmptyString f) as [E|E].
    + subst f. rewrite ends_with_self, Hf.
      apply (redacted_hit field marker delim _ v tl); auto.
      * now split.
      * intros value' rest' [E' _]. apply app_inv_head in E'.
        injection E' as E'. eapply value_minimal; eauto.
    + assert (Hnot : ends_with "" f = false).
      { cbn [ends_with].
        destruct (String.eqb_spec EmptyString f); [contradiction|reflexivity]. }
      rewrite Hnot. simpl. constructor; [|now apply scan_junk].
      intros value rest O. apply (occurrence_at_key []) in O as [O _]; auto.
      apply E. rewrite <- Hf in O. now destruct f.
  - assert (Hk' : ~ In "=" (chars k)) by (intros H; apply Hk; now right).
    destruct (String.eqb_spec (String c k) f) as [E|E].
    + subst f. rewrite ends_with_self. rewrite Hf.
      apply (redacted_hit field marker delim _ v tl); auto.
      * now split.
      * intros value' rest' [E' _]. apply app_inv_head in E'.
        injection E' as E'. eapply value_minimal; eauto.
    + assert (Hstep : ends_with (String c k) f = ends_with k f).
      { cbn [ends_with].
        destruct (String.eqb_spec (String c k) f); [contradiction|reflexivity]. }
      rewrite Hstep. cbn [chars list_ascii_of_string app]. constructor.
      * intros value rest O.
        apply (occurrence_at_key (c :: chars k)) in O as [O _]; auto.
        apply E. rewrite <- Hf in O.
        rewrite <- (string_of_list_ascii_of_string f).
        unfold chars in O. rewrite <- O. simpl.
        now rewrite string_of_list_ascii_of_string.
      * now apply IH.
Qed.

End OneField.

Lemma chars_inj (a b : string) : chars a = chars b -> a = b.
Proof.
  unfold chars. intros H. rewrite <- (string_of_list_ascii_of_string a), H.
  apply string_of_list_ascii_of_string.
Qed.

Lemma chars_line_cons sep k v kvs :
  chars (line sep ((k, v) :: kvs))
  = chars k ++ "=" :: chars v ++ chars sep ++ chars (line sep kvs).
Proof.
  cbn [line fold_right]. unfold pair_text. cbn [fst snd].
  rewrite !FilterFacts.chars_app, <- !app_assoc. reflexivity.
Qed.

Lemma line_like_line sep kvs :
  Forall (fun kv => ~ In "=" (chars (fst kv))) kvs ->
  line_like (chars (line sep kvs)).
Proof.
  intros [|[k v] kvs' Hk _]; [now left|]. right.
  rewrite chars_line_cons. eauto.
Qed.

Section OnePass.
Variables f marker sep : string.
Hypothesis sep_nonempty : sep <> ""%string.
Hypothesis sep_no_eq : ~ In "=" (chars sep).
Hypothesis f_tidy : tidy sep f.
Hypothesis marker_tidy : tidy sep marker.

Lemma redacted_line kvs :
  Forall (fun kv => ~ In "=" (chars (fst kv)) /\ tidy sep (snd kv)) kvs ->
  redacted (chars f) (chars marker) (chars sep)
           (chars (line sep kvs))
           (chars (line sep (map (redact_pair [f] marker) kvs))).
Proof.
  induction 1 as [|[k v] kvs [Hk [Hv1 [Hv2 Hv3]]] Hkvs IH]; [constructor|].
  cbn [map]. unfold redact_pair at 1. cbn [fst snd existsb].
  rewrite orb_false_r, !chars_line_cons.
  replace (chars (if ends_with k f then marker else v))
    with (if ends_with k f then chars marker else chars v)
    by now destruct (ends_with k f).
  destruct f_tidy as [Hf1 [_ Hf3]].
  apply scan_key; auto.
  - intros E. apply sep_nonempty. now apply chars_inj.
  - apply line_like_line. eapply Forall_impl; [|exact Hkvs]. now intros ? [? _].
Qed.

Hypothesis f_plain : plain (chars f).
Hypothesis sep_plain : plain (chars sep).
Hypothesis marker_no_backslash : ~ In "\" (chars marker).

Lemma sub_line kvs :
  Forall (fun kv => ~ In "=" (chars (fst kv)) /\ tidy sep (snd kv)) kvs ->
  Re.sub (f ++ "=.*?" ++ sep) (f ++ "=" ++ marker ++ sep) (line sep kvs)
  = Some (line sep (map (redact_pair [f] marker) kvs)).
Proof.
  intros H.
  destruct (FilterFacts.sub_field f marker sep (line sep kvs))
    as [out [-> R]]; auto.
  f_equal. apply chars_inj.
  exact (redacted_unique _ _ _ _ _ R _ (redacted_line kvs H)).
Qed.

End OnePass.

Lemma redact_pair_nil marker kvs : map (redact_pair [] marker) kvs = kvs.
Proof.
  rewrite <- (map_id kvs) at 2. apply map_ext. now intros [k v].
Qed.

Lemma redact_pair_cons f fields marker kv :
  redact_pair fields marker (redact_pair [f] marker kv)
  = redact_pair (f :: fields) marker kv.
Proof.
  destruct kv as [k v]. unfold redact_pair. cbn [fst snd existsb].
  rewrite orb_false_r.
  now destruct (ends_with k f), (existsb (ends_with k) fields).
Qed.

(** X7.  A line of key=value pairs.  For a separator that is not empty and
    has no [=] and no regular-expression syntax, fields without [=], newline,
    separator character or regular-expression syntax, a marker without [=],
    newline, separator character or backslash, values without [=], newline
    or separator character, and keys without [=], [filter_datum] returns the
    line in which the value of every pair whose key ends with a listed field
    is the marker and every other pair is as it was. *)
Theorem filter_datum_line (fields : list string) (marker sep : string)
    (kvs : list (string * string)) :
  sep <> ""%string ->
  plain (chars sep) ->
  ~ In "=" (chars sep) ->
  Forall (fun f => plain (chars f) /\ tidy sep f) fields ->
  ~ In "\" (chars marker) ->
  tidy sep marker ->
  Forall (fun kv => ~ In "=" (chars (fst kv)) /\ tidy sep (snd kv)) kvs ->
  filter_datum fields marker (line sep kvs) sep
  = Some (line sep (map (redact_pair fields marker) kvs)).
Proof.
  intros Hs1 Hs2 Hs3 Hf Hm1 Hm2. revert kvs.
  induction Hf as [|f fields [Hf1 Hf2] _ IH]; intros kvs Hkvs.
  - cbn [filter_datum]. now rewrite redact_pair_nil.
  - cbn [filter_datum]. rewrite sub_line by assumption.
    rewrite IH.
    + rewrite map_map. f_equal. f_equal. apply map_ext.
      intros kv. apply redact_pair_cons.
    + apply Forall_map. eapply Forall_impl; [|exact Hkvs].
      intros [k v] [Hk Hv]. unfold redact_pair. cbn [fst snd]. split; [assumption|].
      now destruct (existsb (ends_with k) [f]).
Qed.

Section Untouched.
Variables field marker delim : list ascii.

Lemma redacted_untouched s :
  (forall a b, s <> a ++ field ++ "=" :: b) ->
  redacted field marker delim s s.
Proof.
  induction s as [|c s IH]; intros H; constructor.
  - intros value rest [E _]. exact (H [] (value ++ delim ++ rest) E).
  - apply IH. intros a b E. apply (H (c :: a) b). now rewrite E.
Qed.

End Untouched.

(** X8.  A message that nowhere contains a listed field followed by [=] is
    returned as it is (fields and separator without regular-expression
    syntax, marker without backslash). *)
Theorem filter_datum_untouched (fields : list string)
    (marker message sep : string) :
  Forall (fun f => plain (chars f)) fields ->
  plain (chars sep) ->
  ~ In "\" (chars marker) ->
  (forall f, In f fields ->
     forall a b : string, message <> (a ++ f ++ "=" ++ b)%string) ->
  filter_datum fields marker message sep = Some message.
Proof.
  intros Hf Hs Hm. induction Hf as [|f fields Hp _ IH]; intros H;
    [reflexivity|].
  cbn [filter_datum].
  destruct (FilterFacts.sub_field f marker sep message Hp Hs Hm)
    as [out [-> R]].
  assert (E : out = message).
  { apply chars_inj.
    apply (redacted_unique _ _ _ _ _ R). apply redacted_untouched.
    intros a b E. apply (H f (or_introl eq_refl)
                           (string_of_list_ascii a) (string_of_list_ascii b)).
    apply chars_inj. rewrite !FilterFacts.chars_app. unfold chars at 2 4.
    now rewrite !list_ascii_of_string_of_list_ascii. }
  rewrite E. apply IH. intros f' Hf'. apply H. now right.
Qed.

(** X9.  The formatter as [get_logger] configures it: on a line of
    key=value pairs closed by [;], with keys free of [=] and values free of
    [=], [;] and newline, [RedactingFormatter.format] with [PII_FIELDS]
    replaces by [***] the value of every pair whose key ends with [name],
    [email], [phone], [ssn] or [password], and keeps every other pair. *)
Theorem format_pii_line (kvs : list (string * string)) :
  Forall (fun kv => ~ In "=" (chars (fst kv))
                    /\ tidy RedactingFormatter.SEPARATOR (snd kv)) kvs ->
  RedactingFormatter.format PII_FIELDS
    (line RedactingFormatter.SEPARATOR kvs)
  = Some (line RedactingFormatter.SEPARATOR
            (map (redact_pair PII_FIELDS RedactingFormatter.REDACTION) kvs)).
Proof.
  intros H. unfold RedactingFormatter.format, PII_FIELDS.
  assert (T : forall s, forallb (fun c => negb (Ascii.eqb c "=")
                                          && negb (Ascii.eqb c newline)
                                          && negb (Ascii.eqb c ";"))
                          (chars s) = true ->
                        tidy RedactingFormatter.SEPARATOR s).
  { intros s Hs. rewrite forallb_forall in Hs. repeat split.
    - intros Hc. specialize (Hs _ Hc). rewrite Ascii.eqb_refl in Hs.
      discriminate.
    - intros Hc. specialize (Hs _ Hc). rewrite Ascii.eqb_refl in Hs.
      now rewrite andb_false_r in Hs.
    - intros c Hc [<-|[]]. specialize (Hs _ Hc).
      rewrite Ascii.eqb_refl in Hs. now rewrite andb_false_r in Hs. }
  assert (Keep : forall f kvs0,
            Forall (fun kv => ~ In "=" (chars (fst kv))
                              /\ tidy RedactingFormatter.SEPARATOR (snd kv)) kvs0 ->
            Forall (fun kv => ~ In "=" (chars (fst kv))
                              /\ tidy RedactingFormatter.SEPARATOR (snd kv))
                   (map (redact_pair [f] RedactingFormatter.REDACTION) kvs0)).
  { intros f kvs0 H0. apply Forall_map. eapply Forall_impl; [|exact H0].
    intros [k v] [Hk Hv]. unfold redact_pair. cbn [fst snd].
    split; [assumption|].
    destruct (existsb (ends_with k) [f]); [now apply T|assumption]. }
  cbn [filter_datum].
  repeat (rewrite sub_line;
          [| discriminate | intros [E|[]]; discriminate E
           | now apply T | reflexivity | reflexivity
           | intros [E|[E|[E|[]]]]; discriminate E
           | auto ]).
  rewrite !map_map. f_equal. f_equal. apply map_ext. intros kv.
  now rewrite !redact_pair_cons.
Qed.

End LineFacts.

(** * The routes *)

Lemma update_user_known i f db :
  In i (ids db) -> exists db', update_user i f db = (Ok tt, db').
Proof.
  unfold update_user, ids. intros H.
  assert (U : exists l, update_row i f (rows db) = Some l).
  { induction (rows db) as [|u l IH]; simpl in *; [tauto|].
    destruct (Z.eqb_spec (id u) i) as [E|E]; [eauto|].
    destruct H as [H|H]; [contradiction|].
    destruct (IH H) as [l' ->]. simpl. eauto. }
  destruct U as [l ->]. eauto.
Qed.

Lemma create_session_returns e t db :
  exists r db', create_session e t db = (Ok r, db').
Proof.
  unfold create_session.
  destruct (find_user_by_cases (by_email e) db) as [[u F]|F]; rewrite F; eauto.
  destruct (update_user_known (id u)
              (mkFields None (Some (Some (_generate_uuid t))) None) db)
    as [db' ->]; eauto using found_id_in.
Qed.

Lemma create_session_known e t db u :
  find_user_by (by_email e) db = Ok u ->
  exists db', create_session e t db = (Ok (Some t), db').
Proof.
  intros F. unfold create_session, _generate_uuid. rewrite F.
  destruct (update_user_known (id u) (mkFields None (Some (Some t)) None) db)
    as [db' ->]; eauto using found_id_in.
Qed.

Lemma falsy_false v : App.falsy v = false <-> exists s, v = Some s /\ s <> ""%string.
Proof.
  destruct v as [s|]; simpl.
  - rewrite String.eqb_neq. split; [eauto|]. now intros [s' [[= <-] H]].
  - split; [discriminate|]. now intros [s' [H _]].
Qed.

Section RouteFacts.
Context {B : Bcrypt}.

(** [valid_login] raises only what [checkpw] raises for the stored hash. *)
Lemma valid_login_raises e p db x :
  valid_login e p db = Raise x ->
  exists u, find_user_by (by_email e) db = Ok u
            /\ checkpw (encode p) (hashed_password u) = Raise x.
Proof.
  unfold valid_login.
  destruct (find_user_by_cases (by_email e) db) as [[u F]|F]; rewrite F;
    [|discriminate].
  destruct (checkpw (encode p) (hashed_password u)) as [b|[]] eqn:C; simpl;
    try discriminate; intros [= <-]; eauto.
Qed.

Lemma valid_login_true_found e p db :
  valid_login e p db = Ok true -> exists u, find_user_by (by_email e) db = Ok u.
Proof.
  unfold valid_login.
  destruct (find_user_by_cases (by_email e) db) as [[u F]|F]; rewrite F; eauto.
  discriminate.
Qed.

(** X10.  [POST /sessions] answers 200 exactly when the form has a non-empty
    email and password that [valid_login] accepts; the reply then sets the
    cookie [session_id] to the new session id.  In every other case the
    store is left as it was and the answer is 400, 401 or 500; it is 500, the
    failure of an uncaught exception, exactly when the form has a non-empty
    email and password and bcrypt's [checkpw] raises for them against the
    stored hash of the user (as bcrypt does from release 5.0.0 on for a
    password above 72 bytes). *)
Theorem login_route (request : App.Request) (uuid4 : string) (db : DB) :
  let response := fst (App.login request uuid4 db) in
  let db' := snd (App.login request uuid4 db) in
  (App.status_code response = 200
   <-> exists e p,
         App.get "email" (App.form request) = Some e
         /\ App.get "password" (App.form request) = Some p
         /\ e <> "" /\ p <> "" /\ valid_login e p db = Ok true)
  /\ (App.status_code response = 200 ->
      exists e,
        response
        = App.jsonify 200 [("email", e); ("message", "logged in")]
                      (Some ("session_id", Some uuid4)))
  /\ (App.status_code response <> 200 ->
      db' = db
      /\ (App.status_code response = 400 \/ App.status_code response = 401
          \/ App.status_code response = 500))
  /\ (App.status_code response = 500
      <-> exists e p u x,
            App.get "email" (App.form request) = Some e
            /\ App.get "password" (App.form request) = Some p
            /\ e <> "" /\ p <> ""
            /\ find_user_by (by_email e) db = Ok u
            /\ checkpw (list_byte_of_string p) (hashed_password u) = Raise x
            /\ x <> NoResultFound).
Proof.
  unfold App.login.
  destruct (App.falsy (App.get "email" (App.form request))) eqn:Fe.
  { cbn. repeat split; try discriminate; auto.
    - intros [e [p [He [_ [Ne _]]]]].
      assert (App.falsy (Some e) = false) by (apply falsy_false; eauto).
      congruence.
    - intros [e [p [u [x [He [_ [Ne _]]]]]]].
      assert (App.falsy (Some e) = false) by (apply falsy_false; eauto).
      congruence. }
  destruct (App.falsy (App.get "password" (App.form request))) eqn:Fp.
  { cbn. repeat split; try discriminate; auto.
    - intros [e [p [_ [Hp [_ [Np _]]]]]].
      assert (App.falsy (Some p) = false) by (apply falsy_false; eauto).
      congruence.
    - intros [e [p [u [x [_ [Hp [_ [Np _]]]]]]]].
      assert (App.falsy (Some p) = false) by (apply falsy_false; eauto).
      congruence. }
  apply falsy_false in Fe as [e [-> Ne]]. apply falsy_false in Fp as [p [-> Np]].
  cbn [orb].
  assert (Raised : forall e' p' u x,
            Some e = Some e' -> Some p = Some p' ->
            find_user_by (by_email e') db = Ok u ->
            checkpw (list_byte_of_string p') (hashed_password u) = Raise x ->
            x <> NoResultFound ->
            valid_login e p db = Raise x).
  { intros e' p' u x [= <-] [= <-] F C Nx. unfold valid_login, encode.
    rewrite F, C. now destruct x. }
  destruct (valid_login e p db) as [[|]|x] eqn:V.
  - destruct (valid_login_true_found _ _ _ V) as [u F].
    destruct (create_session_known e uuid4 db u F) as [db1 ->]. cbn.
    repeat split; eauto 10; try congruence; try discriminate.
    intros [e' [p' [u' [x [He [Hp [_ [_ [F' [C Nx]]]]]]]]]].
    discriminate (Raised _ _ _ _ He Hp F' C Nx).
  - cbn. repeat split; try discriminate; auto.
    + intros [e' [p' [[= <-] [[= <-] [_ [_ C]]]]]]. congruence.
    + intros [e' [p' [u' [x [He [Hp [_ [_ [F' [C Nx]]]]]]]]]].
      discriminate (Raised _ _ _ _ He Hp F' C Nx).
  - cbn. destruct (valid_login_raises _ _ _ _ V) as [u [F C]].
    repeat split; try discriminate; auto.
    + intros [e' [p' [[= <-] [[= <-] [_ [_ C']]]]]]. congruence.
    + intros _. exists e, p, u, x. repeat split; auto.
      intros ->. unfold valid_login in V. rewrite F, C in V. discriminate.
Qed.

Lemma login_ok request uuid4 db :
  App.status_code (fst (App.login request uuid4 db)) = 200 ->
  exists e p u,
    App.get "email" (App.form request) = Some e
    /\ App.get "password" (App.form request) = Some p
    /\ find_user_by (by_email e) db = Ok u
    /\ snd (App.login request uuid4 db) = snd (create_session e uuid4 db).
Proof.
  unfold App.login.
  destruct (App.falsy (App.get "email" (App.form request))) eqn:Fe;
    [discriminate|].
  destruct (App.falsy (App.get "password" (App.form request))) eqn:Fp;
    [discriminate|].
  apply falsy_false in Fe as [e [-> Ne]]. apply falsy_false in Fp as [p [-> Np]].
  cbn [orb].
  destruct (valid_login e p db) as [[|]|x] eqn:V; try discriminate.
  destruct (valid_login_true_found _ _ _ V) as [u F].
  destruct (create_session_known e uuid4 db u F) as [db1 E]. rewrite E.
  intros _. exists e, p, u. cbn. repeat split; auto. now rewrite E.
Qed.

(** X11.  Log in, then ask for the profile: in a store with distinct ids,
    when [POST /sessions] answers 200 with a fresh session id, [GET /profile]
    with that session id as cookie answers 200 with the email that logged
    in. *)
Theorem login_then_profile (request : App.Request) (uuid4 : string) (db : DB)
    (any_form : list (string * string)) :
  NoDup (ids db) ->
  ~ In uuid4 (session_ids db) ->
  App.status_code (fst (App.login request uuid4 db)) = 200 ->
  exists e,
    App.get "email" (App.form request) = Some e
    /\ App.profile (App.mkRequest any_form [("session_id", uuid4)])
                   (snd (App.login request uuid4 db))
       = App.jsonify 200 [("email", e)] None.
Proof.
  intros N Fr H. destruct (login_ok _ _ _ H) as [e [p [u [He [_ [F ->]]]]]].
  exists e. split; [assumption|].
  rewrite (create_session_found _ _ _ _ N F). cbn [snd].
  pose proof (find_user_by_Ok _ _ _ F) as [Hu Hm]. simpl in Hm.
  apply String.eqb_eq in Hm.
  unfold App.profile.
  change (App.get "session_id"
            (App.cookies (App.mkRequest any_form [("session_id", uuid4)])))
    with (Some uuid4).
  unfold get_user_from_session_id.
  rewrite (find_holder (by_session_id uuid4) (id u) _ db u); auto.
  - now rewrite touch_email, Hm.
  - unfold touch. rewrite Z.eqb_refl. simpl. apply String.eqb_refl.
  - intros v Hv _. now apply (not_held_session uuid4 db).
Qed.

Context {L : BcryptSpec B}.

(** X12.  Register, then log in, over HTTP, with passwords of at most 72
    bytes, on which bcrypt is taken to keep its contract: [POST /users] with
    an email nobody has and such a password is answered 200, user created;
    after it, [POST /sessions] for that email answers 200 with the registered
    password and 401 with any other non-empty password of at most 72 bytes;
    an empty password is answered 400, so a user registered with an empty
    password cannot log in. *)
Theorem route_register_then_login (e p p' : string) (salt : list byte)
    (uuid4 : string) (db : DB) :
  ~ In e (emails db) -> e <> "" ->
  short (list_byte_of_string p) ->
  let posted pw := App.mkRequest [("email", e); ("password", pw)] [] in
  let db1 := snd (App.register_user (posted p) salt db) in
  fst (App.register_user (posted p) salt db)
  = App.jsonify 200 [("email", e); ("message", "user created")] None
  /\ (p' <> "" -> short (list_byte_of_string p') ->
      App.status_code (fst (App.login (posted p') uuid4 db1))
      = if String.eqb p' p then 200 else 401)
  /\ App.status_code (fst (App.login (posted "") uuid4 db1)) = 400.
Proof.
  intros H Ne Sp. cbv zeta. unfold App.register_user.
  cbn [App.form App.get find fst snd option_map String.eqb Ascii.eqb Bool.eqb].
  destruct (hashpw_short _ salt Sp) as [h Hh].
  rewrite (register_user_fresh _ _ _ _ h) by assumption. cbn [fst snd].
  split; [reflexivity|]. split;
    [|unfold App.login; cbn [App.form App.get find fst snd option_map
                              String.eqb Ascii.eqb Bool.eqb App.falsy];
      now destruct (String.eqb e "")].
  intros Np Sp'. unfold App.login.
  cbn [App.form App.get find fst snd option_map String.eqb Ascii.eqb Bool.eqb
       App.falsy].
  destruct (String.eqb_spec e "") as [|_]; [contradiction|].
  destruct (String.eqb_spec p' "") as [|_]; [contradiction|].
  cbn [orb].
  assert (V : valid_login e p'
                (mkDB (rows db ++ [mkUser (next_id db) e h None None])
                      (next_id db + 1))
              = Ok (String.eqb p' p)).
  { now apply (valid_login_hash _ _ _ salt _ _ (found_after_add _ h _ H)). }
  rewrite V. destruct (String.eqb p' p) eqn:E; [|reflexivity].
  destruct (valid_login_true_found _ _ _ V) as [u F].
  destruct (create_session_known e uuid4 _ u F) as [db2 ->]. reflexivity.
Qed.

End RouteFacts.

(** X13.  Log out, then ask for the profile: in a store with distinct ids
    and distinct session ids, [DELETE /sessions] with the session id of a
    user as cookie answers with a redirect to [/]; after it, [GET /profile]
    and [DELETE /sessions] with the same cookie answer 403, and no user has
    changed in anything but the session. *)
Theorem logout_then_profile (request : App.Request) (db : DB) (sid : string)
    (u : User) :
  NoDup (ids db) ->
  NoDup (session_ids db) ->
  App.get "session_id" (App.cookies request) = Some sid ->
  find_user_by (by_session_id sid) db = Ok u ->
  let db' := snd (App.log_out request db) in
  App.log_out request db = (App.redirect "/", db')
  /\ App.profile request db' = App.abort 403
  /\ App.log_out request db' = (App.abort 403, db')
  /\ map logged_out (rows db') = map logged_out (rows db).
Proof.
  intros N NS Hc F. cbv zeta.
  pose proof (find_user_by_Ok _ _ _ F) as [Hu Hm]. simpl in Hm.
  apply opt_string_eqb_true in Hm.
  set (f := mkFields None (Some None) None).
  assert (D : destroy_session (Some (id u)) db
              = (Ok tt, mkDB (map (touch (id u) f) (rows db)) (next_id db))).
  { unfold destroy_session.
    assert (Fi : find_user_by (by_id (id u)) db = Ok u).
    { unfold find_user_by. rewrite (find_only _ _ u); auto.
      - simpl. apply Z.eqb_refl.
      - intros y Hy My. simpl in My. apply Z.eqb_eq in My.
        exact (NoDup_map_eq id _ _ _ N Hy Hu My). }
    rewrite Fi. rewrite update_user_touch; auto. now apply in_map. }
  assert (G : get_user_from_session_id (Some sid)
                (mkDB (map (touch (id u) f) (rows db)) (next_id db))
              = Ok None).
  { unfold get_user_from_session_id, find_user_by. cbn [rows].
    rewrite find_none_all; [reflexivity|].
    intros y Hy. apply in_map_iff in Hy as [v [<- Hv]].
    unfold touch. destruct (Z.eqb_spec (id v) (id u)) as [E|E]; [reflexivity|].
    destruct (matches (by_session_id sid) v) eqn:Mv; [|reflexivity].
    exfalso. apply E. f_equal. simpl in Mv. apply opt_string_eqb_true in Mv.
    exact (NoDup_present_eq session_id _ _ _ _ NS Hv Hu Mv Hm). }
  assert (L1 : App.log_out request db
               = (App.redirect "/",
                  mkDB (map (touch (id u) f) (rows db)) (next_id db))).
  { unfold App.log_out. rewrite Hc. unfold get_user_from_session_id.
    now rewrite F, D. }
  rewrite L1. cbn [snd]. unfold App.log_out, App.profile. rewrite Hc, G.
  repeat split. cbn [rows].
  rewrite map_map. apply map_ext. intros v. unfold touch.
  now destruct (Z.eqb (id v) (id u)).
Qed.

Section ResetRoute.
Context {B : Bcrypt}.

(** X14.  [PUT /reset_password] never looks at the email of the form: in a
    store with distinct ids, with a token some user holds, when bcrypt's
    [hashpw] returns a hash for the new password it answers 200, echoes
    whatever email was posted, and sets that hash for the holder of the
    token; when [hashpw] raises [ValueError] (as bcrypt does from release
    5.0.0 on for a password above 72 bytes) it answers 403 and changes
    nothing, and any other exception of [hashpw] is left uncaught.  With a
    token nobody holds it answers 403 and changes nothing. *)
Theorem update_password_route (request : App.Request) (salt : list byte)
    (db : DB) (e t p : string) :
  NoDup (ids db) ->
  App.get "email" (App.form request) = Some e ->
  App.get "reset_token" (App.form request) = Some t ->
  App.get "new_password" (App.form request) = Some p ->
  (forall u, find_user_by (by_reset_token t) db = Ok u ->
     (forall h, hashpw (list_byte_of_string p) salt = Ok h ->
        App.update_password request salt db
        = (App.jsonify 200 [("email", e); ("message", "Password updated")] None,
           mkDB (map (touch (id u) (reset_fields h)) (rows db)) (next_id db)))
     /\ (hashpw (list_byte_of_string p) salt = Raise ValueError ->
         App.update_password request salt db = (App.abort 403, db))
     /\ (forall x, hashpw (list_byte_of_string p) salt = Raise x ->
         x <> ValueError ->
         App.update_password request salt db = (App.uncaught x, db)))
  /\ (~ In t (reset_tokens db) ->
      App.update_password request salt db = (App.abort 403, db)).
Proof.
  intros N He Ht Hp. unfold App.update_password. rewrite He, Ht, Hp. split.
  - intros u F. split; [|split].
    + intros h Hh. now rewrite (update_password_found _ _ _ _ _ h N F Hh).
    + intros Hx. now rewrite (update_password_refused _ _ _ _ _ _ F Hx).
    + intros x Hx Nx. rewrite (update_password_refused _ _ _ _ _ _ F Hx).
      now destruct x.
  - intros H. now rewrite update_password_missing.
Qed.

End ResetRoute.

(** * The end-to-end script *)

Section ScriptFacts.
Context {B : Bcrypt} {L : BcryptSpec B}.

(** X15.  The script of [main.py] passes: against a server whose store has
    distinct serial ids and distinct emails and no user for the script's
    email, with a fresh session id and a fresh reset token, no assertion of
    the script fails, whatever the salts; at the end the script's user holds
    the last session id, no reset token, and the hash bcrypt made of the new
    password. *)
Theorem main_passes (d : Main.Draws) (db : DB) :
  wf db ->
  ~ In Main.EMAIL (emails db) ->
  ~ In (Main.uuid_login d) (session_ids db) ->
  ~ In (Main.uuid_reset d) (reset_tokens db) ->
  exists db' h,
    Main.main d db = Some (tt, db')
    /\ _hash_password Main.NEW_PASSWD (Main.salt_update d) = Ok h
    /\ find_user_by (by_email Main.EMAIL) db'
       = Ok (mkUser (next_id db) Main.EMAIL h (Some (Main.uuid_last d)) None).
Proof.
  intros W He Hs Hr. destruct d as [s1 uw ul ur s2 ut]. cbn [Main.uuid_login
    Main.uuid_reset Main.salt_update Main.uuid_last] in *.
  assert (S1 : short (encode Main.PASSWD)) by (unfold short; simpl; lia).
  assert (S2 : short (encode Main.NEW_PASSWD)) by (unfold short; simpl; lia).
  destruct (hashpw_short _ s1 S1) as [h1 H1].
  destruct (hashpw_short _ s2 S2) as [h2 H2].
  set (u0 := mkUser (next_id db) Main.EMAIL h1 None None).
  set (db1 := mkDB (rows db ++ [u0]) (next_id db + 1)).
  assert (F1 : register_user Main.EMAIL Main.PASSWD s1 db = (Ok u0, db1))
    by now apply register_user_fresh.
  assert (N1 : NoDup (ids db1)) by (apply wf_ids, wf_add; assumption).
  assert (In1 : In u0 (rows db1)) by (apply in_or_app; right; now left).
  assert (Fe1 : find_user_by (by_email Main.EMAIL) db1 = Ok u0).
  { unfold find_user_by. rewrite (find_only _ _ u0); auto.
    intros y Hy My. cbn [rows db1] in Hy.
    apply in_app_or in Hy as [Hy|[<-|[]]]; [|reflexivity].
    pose proof (not_in_emails_missing _ _ He) as M.
    apply find_user_by_Raise in M as [_ M]. specialize (M y Hy). congruence. }
  assert (Hs1 : ~ In ul (session_ids db1)).
  { unfold session_ids, db1. cbn [rows]. now rewrite present_map_app. }
  assert (Hr1 : ~ In ur (reset_tokens db1)).
  { unfold reset_tokens, db1. cbn [rows]. now rewrite present_map_app. }
  assert (V1 : forall p', short (encode p') ->
                          valid_login Main.EMAIL p' db1
                          = Ok (String.eqb p' Main.PASSWD)).
  { intros p' Sp'. now apply (valid_login_hash _ _ _ s1 _ u0). }
  (* logging in *)
  set (fs := mkFields None (Some (Some ul)) None).
  set (db2 := mkDB (map (touch (id u0) fs) (rows db1)) (next_id db1)).
  assert (C2 : create_session Main.EMAIL ul db1 = (Ok (Some ul), db2))
    by now apply create_session_found.
  assert (G2 : get_user_from_session_id (Some ul) db2
               = Ok (Some (touch (id u0) fs u0))).
  { unfold get_user_from_session_id, db2.
    rewrite (find_holder (by_session_id ul) (id u0) fs db1 u0); auto.
    - unfold touch. rewrite Z.eqb_refl. simpl. apply String.eqb_refl.
    - intros v Hv _. now apply (not_held_session ul db1). }
  (* logging out gives the store back *)
  assert (D3 : destroy_session (Some (id u0)) db2 = (Ok tt, db1)).
  { assert (N2 : NoDup (ids db2))
      by (unfold ids, db2; cbn [rows]; now rewrite map_touch_ids).
    assert (Fi : find_user_by (by_id (id u0)) db2 = Ok (touch (id u0) fs u0)).
    { apply find_holder; auto.
      - simpl. rewrite touch_id. apply Z.eqb_refl.
      - intros v _ E. simpl. now apply Z.eqb_neq. }
    unfold destroy_session. rewrite Fi, touch_id.
    rewrite update_user_touch; auto.
    2:{ unfold ids, db2. cbn [rows]. rewrite map_touch_ids. now apply in_map. }
    f_equal. unfold db2. cbn [rows next_id].
    transitivity (mkDB (rows db1) (next_id db1)); [f_equal|reflexivity].
    rewrite map_map. rewrite <- (map_id (rows db1)) at 2.
    apply map_ext_in. intros v Hv. unfold touch at 2.
    destruct (Z.eqb_spec (id v) (id u0)) as [E|E].
    - rewrite (NoDup_map_eq id _ _ _ N1 Hv In1 E). unfold touch.
      cbn. rewrite Z.eqb_refl. reflexivity.
    - now apply touch_other. }
  (* the reset *)
  set (fr := mkFields None None (Some (Some ur))).
  set (db4 := mkDB (map (touch (id u0) fr) (rows db1)) (next_id db1)).
  assert (R4 : get_reset_password_token Main.EMAIL ur db1 = (Ok ur, db4))
    by now apply get_reset_password_token_found.
  assert (N4 : NoDup (ids db4))
    by (unfold ids, db4; cbn [rows]; now rewrite map_touch_ids).
  assert (Ft : find_user_by (by_reset_token ur) db4 = Ok (touch (id u0) fr u0)).
  { apply find_holder; auto.
    - unfold touch. rewrite Z.eqb_refl. simpl. apply String.eqb_refl.
    - intros v Hv _. now apply (not_held_reset ur db1). }
  set (db5 := mkDB (map (touch (id u0) (reset_fields h2)) (rows db4))
                   (next_id db4)).
  assert (U5 : update_password (Some ur) (Some Main.NEW_PASSWD) s2 db4
               = (Ok tt, db5)).
  { rewrite (update_password_found _ _ _ _ _ h2 N4 Ft H2).
    now rewrite touch_id. }
  set (u5 := mkUser (next_id db) Main.EMAIL h2 None None).
  assert (Fe5 : find_user_by (by_email Main.EMAIL) db5 = Ok u5).
  { unfold db5. rewrite (found_by_email_touch _ _ _ db4 (touch (id u0) fr u0)).
    - unfold touch. cbn. rewrite Z.eqb_refl. cbn. rewrite Z.eqb_refl.
      reflexivity.
    - now apply found_by_email_touch. }
  assert (N5 : NoDup (ids db5))
    by (unfold ids, db5; cbn [rows]; now rewrite map_touch_ids).
  assert (V5 : valid_login Main.EMAIL Main.NEW_PASSWD db5 = Ok true).
  { now rewrite (valid_login_hash _ _ Main.NEW_PASSWD s2 _ u5 Fe5 H2 S2 S2). }
  set (ft := mkFields None (Some (Some ut)) None).
  set (db6 := mkDB (map (touch (id u5) ft) (rows db5)) (next_id db5)).
  assert (C6 : create_session Main.EMAIL ut db5 = (Ok (Some ut), db6))
    by now apply create_session_found.
  exists db6, h2. split; [|split; [exact H2|]].
  - unfold Main.main. cbn [Main.salt_register Main.uuid_wrong Main.uuid_login
      Main.uuid_reset Main.salt_update Main.uuid_last].
    replace (Main.register_user Main.EMAIL Main.PASSWD s1 db)
      with (Some (tt, db1))
      by (unfold Main.register_user, App.register_user;
          cbn [App.form App.get find fst snd option_map String.eqb Ascii.eqb
               Bool.eqb Main.EMAIL Main.PASSWD];
          fold Main.EMAIL; fold Main.PASSWD; now rewrite F1).
    cbn [Main.bind].
    replace (Main.log_in_wrong_password Main.EMAIL Main.NEW_PASSWD uw db1)
      with (Some (tt, db1))
      by (unfold Main.log_in_wrong_password, App.login;
          cbn [App.form App.get find fst snd option_map String.eqb Ascii.eqb
               Bool.eqb App.falsy Main.EMAIL Main.NEW_PASSWD orb];
          fold Main.EMAIL; fold Main.NEW_PASSWD; now rewrite (V1 _ S2)).
    cbn [Main.bind].
    replace (Main.profile_unlogged db1) with (Some (tt, db1)) by reflexivity.
    cbn [Main.bind].
    replace (Main.log_in Main.EMAIL Main.PASSWD ul db1)
      with (Some (Some ul, db2))
      by (unfold Main.log_in, App.login;
          cbn [App.form App.get find fst snd option_map String.eqb Ascii.eqb
               Bool.eqb App.falsy Main.EMAIL Main.PASSWD orb];
          fold Main.EMAIL; fold Main.PASSWD; now rewrite (V1 _ S1), C2).
    cbn [Main.bind].
    replace (Main.profile_logged (Some ul) db2) with (Some (tt, db2))
      by (unfold Main.profile_logged, App.profile;
          change (App.get "session_id" (App.cookies (App.mkRequest []
                    (Main.session_cookie (Some ul))))) with (Some ul);
          now rewrite G2, touch_email).
    cbn [Main.bind].
    replace (Main.log_out (Some ul) db2) with (Some (tt, db1))
      by (unfold Main.log_out, App.log_out;
          change (App.get "session_id" (App.cookies (App.mkRequest []
                    (Main.session_cookie (Some ul))))) with (Some ul);
          now rewrite G2, touch_id, D3).
    cbn [Main.bind].
    replace (Main.reset_password_token Main.EMAIL ur db1)
      with (Some (Some ur, db4))
      by (unfold Main.reset_password_token, App.get_reset_password_token;
          cbn [App.form App.get find fst snd option_map String.eqb Ascii.eqb
               Bool.eqb Main.EMAIL];
          fold Main.EMAIL; now rewrite R4).
    cbn [Main.bind].
    replace (Main.update_password Main.EMAIL (Some ur) Main.NEW_PASSWD s2 db4)
      with (Some (tt, db5))
      by (unfold Main.update_password, App.update_password;
          cbn [App.form App.get find fst snd option_map String.eqb Ascii.eqb
               Bool.eqb app];
          now rewrite U5).
    cbn [Main.bind].
    replace (Main.log_in Main.EMAIL Main.NEW_PASSWD ut db5)
      with (Some (Some ut, db6))
      by (unfold Main.log_in, App.login;
          cbn [App.form App.get find fst snd option_map String.eqb Ascii.eqb
               Bool.eqb App.falsy Main.EMAIL Main.NEW_PASSWD orb];
          fold Main.EMAIL; fold Main.NEW_PASSWD; now rewrite V5, C6).
    reflexivity.
  - unfold db6. rewrite (found_by_email_touch _ _ _ db5 u5 Fe5).
    unfold touch. now rewrite Z.eqb_refl.
Qed.

End ScriptFacts.

(** * The further properties on sample data *)

Lemma NoDup_ids_db_3 : NoDup (ids db_3).
Proof. repeat constructor; simpl; intuition discriminate. Qed.

Lemma NoDup_ids_db_2 : NoDup (ids db_2).
Proof. repeat constructor; simpl; intuition discriminate. Qed.

Lemma short_pw1 : short (list_byte_of_string "pw1").
Proof. unfold short. simpl. lia. Qed.

Lemma short_pw2 : short (list_byte_of_string "pw2").
Proof. unfold short. simpl. lia. Qed.

(** After the sample history, the empty token finds nobody and Bob's session
    finds Bob. *)
Lemma get_user_from_session_id_reachable_witness :
  Forall nonempty_draw [c_bob; c_eve; c_login; c_token; c_reset]
  /\ get_user_from_session_id None db_5 = Ok None
  /\ get_user_from_session_id (Some "") db_5 = Ok None
  /\ (forall sid, ~ In sid (session_ids db_5) ->
        get_user_from_session_id (Some sid) db_5 = Ok None)
  /\ (forall sid, In sid (session_ids db_5) ->
        exists u, get_user_from_session_id (Some sid) db_5 = Ok (Some u)
                  /\ In u (rows db_5) /\ session_id u = Some sid).
Proof.
  assert (H : Forall nonempty_draw [c_bob; c_eve; c_login; c_token; c_reset])
    by (repeat constructor; discriminate).
  split; [exact H|].
  exact (@get_user_from_session_id_reachable toy_bcrypt
           [c_bob; c_eve; c_login; c_token; c_reset] H).
Defined.

(** Bob registers on the empty store and logs in. *)
Lemma register_then_login_witness :
  (~ In "bob@x.io" (emails new_db) /\ short (list_byte_of_string "pw1"))
  /\ exists h,
       @hashpw toy_bcrypt (list_byte_of_string "pw1") [x01] = Ok h
       /\ @register_user toy_bcrypt "bob@x.io" "pw1" [x01] new_db
          = (Ok (mkUser 1 "bob@x.io" h None None),
             mkDB [mkUser 1 "bob@x.io" h None None] 2)
       /\ @valid_login toy_bcrypt "bob@x.io" "pw1"
            (snd (@register_user toy_bcrypt "bob@x.io" "pw1" [x01] new_db))
          = Ok true.
Proof.
  assert (H : ~ In "bob@x.io" (emails new_db)) by (simpl; tauto).
  split; [split; [exact H|exact short_pw1]|].
  exact (@register_then_login toy_bcrypt toy_bcrypt_spec "bob@x.io" "pw1" "pw1"
           [x01] new_db H short_pw1 short_pw1).
Defined.

(** Bob resets his password with the token ["R1"]; the old password is
    refused afterwards. *)
Lemma reset_then_login_witness :
  (NoDup (ids db_3) /\ ~ In "R1" (reset_tokens db_3)
   /\ find_user_by (by_email "bob@x.io") db_3 = Ok bob_in
   /\ short (list_byte_of_string "pw2") /\ short (list_byte_of_string "pw1"))
  /\ @valid_login toy_bcrypt "bob@x.io" "pw1" db_5 = Ok false.
Proof.
  assert (F : ~ In "R1" (reset_tokens db_3)) by (simpl; tauto).
  split;
    [exact (conj NoDup_ids_db_3 (conj F (conj eq_refl
              (conj short_pw2 short_pw1))))|].
  destruct (@reset_then_login toy_bcrypt toy_bcrypt_spec "bob@x.io" "R1" "pw2"
              "pw1" [x03] db_3 bob_in NoDup_ids_db_3 F eq_refl short_pw2
              short_pw1) as [h [_ [_ [_ [_ V]]]]].
  exact V.
Defined.

(** Bob asks for a second token ["R2"]; ["R1"] is refused afterwards. *)
Lemma reset_token_replaced_witness :
  (NoDup (ids db_3) /\ ~ In "R1" (reset_tokens db_3)
   /\ ~ In "R2" (reset_tokens db_3) /\ "R1" <> "R2"
   /\ find_user_by (by_email "bob@x.io") db_3 = Ok bob_in)
  /\ forall p salt,
       @update_password toy_bcrypt (Some "R1") (Some p) salt
         (snd (get_reset_password_token "bob@x.io" "R2" db_4))
       = (Raise ValueError,
          snd (get_reset_password_token "bob@x.io" "R2" db_4)).
Proof.
  assert (F1 : ~ In "R1" (reset_tokens db_3)) by (simpl; tauto).
  assert (F2 : ~ In "R2" (reset_tokens db_3)) by (simpl; tauto).
  assert (Ne : "R1" <> "R2") by discriminate.
  split; [repeat split; auto using NoDup_ids_db_3|].
  exact (proj2 (proj2 (proj2
    (@reset_token_replaced toy_bcrypt "bob@x.io" "R1" "R2" db_3 bob_in
       NoDup_ids_db_3 F1 F2 Ne eq_refl)))).
Defined.

(** Bob logs in a second time; the session ["S1"] is gone. *)
Lemma create_session_overwrites_witness :
  (NoDup (ids db_2) /\ ~ In "S1" (session_ids db_2)
   /\ ~ In "S2" (session_ids db_2) /\ "S1" <> "S2"
   /\ find_user_by (by_email "bob@x.io") db_2 = Ok bob)
  /\ get_user_from_session_id (Some "S1")
       (snd (create_session "bob@x.io" "S2" db_3))
     = Ok None.
Proof.
  assert (F1 : ~ In "S1" (session_ids db_2)) by (simpl; tauto).
  assert (F2 : ~ In "S2" (session_ids db_2)) by (simpl; tauto).
  assert (Ne : "S1" <> "S2") by discriminate.
  split; [repeat split; auto using NoDup_ids_db_2|].
  exact (proj1 (proj2 (proj2
    (create_session_overwrites "bob@x.io" "S1" "S2" db_2 bob
       NoDup_ids_db_2 F1 F2 Ne eq_refl)))).
Defined.

(** The sample history has fresh draws. *)
Lemma fresh_history_invariant_witness :
  @fresh_run toy_bcrypt [c_bob; c_eve; c_login; c_token; c_reset] new_db
  /\ wf db_5 /\ tokens_unique db_5.
Proof.
  assert (F : @fresh_run toy_bcrypt [c_bob; c_eve; c_login; c_token; c_reset]
                new_db) by (simpl; tauto).
  split; [exact F|].
  exact (@fresh_history_invariant toy_bcrypt
           [c_bob; c_eve; c_login; c_token; c_reset] F).
Defined.

Lemma sample_pairs_tidy :
  Forall (fun kv => ~ In "="%char (chars (fst kv)) /\ Line.tidy ";" (snd kv))
         sample_pairs.
Proof.
  unfold sample_pairs.
  repeat (apply Forall_cons;
          [split; [|repeat split]; simpl; unfold Re.newline;
           intuition congruence|]).
  apply Forall_nil.
Qed.

(** A line with a listed key, two keys that end with a listed field, and one
    that does not. *)
Lemma filter_datum_line_witness :
  (";" <> "" /\ Redaction.plain (chars ";") /\ ~ In "="%char (chars ";")
   /\ Forall (fun f => Redaction.plain (chars f) /\ Line.tidy ";" f)
             ["name"; "email"]
   /\ ~ In "\"%char (chars "***") /\ Line.tidy ";" "***"
   /\ Forall (fun kv => ~ In "="%char (chars (fst kv))
                        /\ Line.tidy ";" (snd kv)) sample_pairs)
  /\ filter_datum ["name"; "email"] "***"
       "name=bob; email=b@x.io; username=bo; ip=1.2.3.4;" ";"
     = Some "name=***; email=***; username=***; ip=1.2.3.4;".
Proof.
  assert (H1 : ";" <> "") by discriminate.
  assert (H2 : Redaction.plain (chars ";")) by reflexivity.
  assert (H3 : ~ In "="%char (chars ";")) by (simpl; intuition discriminate).
  assert (H4 : Forall (fun f => Redaction.plain (chars f) /\ Line.tidy ";" f)
                      ["name"; "email"])
    by (repeat (apply Forall_cons;
                [split; [reflexivity|repeat split]; simpl;
                 unfold Re.newline; intuition congruence|]);
        apply Forall_nil).
  assert (H5 : ~ In "\"%char (chars "***")) by (simpl; intuition discriminate).
  assert (H6 : Line.tidy ";" "***")
    by (repeat split; simpl; unfold Re.newline; intuition congruence).
  split;
    [exact (conj H1 (conj H2 (conj H3 (conj H4 (conj H5
              (conj H6 sample_pairs_tidy))))))|].
  exact (LineFacts.filter_datum_line ["name"; "email"] "***" ";" sample_pairs
           H1 H2 H3 H4 H5 H6 sample_pairs_tidy).
Defined.

(** A message with no [=] in it. *)
Lemma filter_datum_untouched_witness :
  (Forall (fun f => Redaction.plain (chars f)) ["name"]
   /\ Redaction.plain (chars ";") /\ ~ In "\"%char (chars "***")
   /\ forall f, In f ["name"] ->
        forall a b : string, "server up" <> a ++ f ++ "=" ++ b)
  /\ filter_datum ["name"] "***" "server up" ";" = Some "server up".
Proof.
  assert (H1 : Forall (fun f => Redaction.plain (chars f)) ["name"])
    by (repeat constructor).
  assert (H3 : ~ In "\"%char (chars "***")) by (simpl; intuition discriminate).
  assert (H4 : forall f, In f ["name"] ->
                 forall a b : string, "server up" <> a ++ f ++ "=" ++ b).
  { intros f [<-|[]] a b E.
    assert (I : In "="%char (chars "server up")).
    { rewrite E, !FilterFacts.chars_app. apply in_or_app. right.
      apply in_or_app. right. now left. }
    simpl in I. intuition discriminate. }
  split; [repeat split; auto|].
  exact (LineFacts.filter_datum_untouched ["name"] "***" "server up" ";"
           H1 eq_refl H3 H4).
Defined.

(** The shipped formatter on the sample line. *)
Lemma format_pii_line_witness :
  Forall (fun kv => ~ In "="%char (chars (fst kv))
                    /\ Line.tidy RedactingFormatter.SEPARATOR (snd kv))
         sample_pairs
  /\ RedactingFormatter.format PII_FIELDS
       "name=bob; email=b@x.io; username=bo; ip=1.2.3.4;"
     = Some "name=***; email=***; username=***; ip=1.2.3.4;".
Proof.
  split; [exact sample_pairs_tidy|].
  exact (LineFacts.format_pii_line sample_pairs sample_pairs_tidy).
Defined.

(** Bob logs in over HTTP and reads his profile. *)
Lemma login_then_profile_witness :
  (NoDup (ids db_2) /\ ~ In "S1" (session_ids db_2)
   /\ App.status_code
        (fst (@App.login toy_bcrypt
                (App.mkRequest [("email", "bob@x.io"); ("password", "pw1")] [])
                "S1" db_2)) = 200)
  /\ exists e,
       App.get "email" [("email", "bob@x.io"); ("password", "pw1")] = Some e
       /\ App.profile (App.mkRequest [] [("session_id", "S1")]) db_3
          = App.jsonify 200 [("email", e)] None.
Proof.
  assert (F : ~ In "S1" (session_ids db_2)) by (simpl; tauto).
  split; [repeat split; [apply NoDup_ids_db_2|exact F]|].
  exact (@login_then_profile toy_bcrypt
           (App.mkRequest [("email", "bob@x.io"); ("password", "pw1")] [])
           "S1" db_2 [] NoDup_ids_db_2 F eq_refl).
Defined.

(** A password of 73 bytes for Bob, with bcrypt from release 5.0.0 on, is
    answered 500. *)
Lemma login_route_witness :
  App.status_code
    (fst (@App.login toy_bcrypt
            (App.mkRequest [("email", "bob@x.io"); ("password", pw_73c)] [])
            "S1" db_1)) = 500.
Proof.
  destruct (@login_route toy_bcrypt
              (App.mkRequest [("email", "bob@x.io"); ("password", pw_73c)] [])
              "S1" db_1) as [_ [_ [_ H]]].
  apply H. exists "bob@x.io", pw_73c, bob, ValueError.
  repeat split; discriminate.
Defined.

(** Bob registers over HTTP; a wrong password is answered 401. *)
Lemma route_register_then_login_witness :
  (~ In "bob@x.io" (emails new_db) /\ "bob@x.io" <> ""
   /\ short (list_byte_of_string "pw1")
   /\ "nope" <> "" /\ short (list_byte_of_string "nope"))
  /\ App.status_code
       (fst (@App.login toy_bcrypt
               (App.mkRequest [("email", "bob@x.io"); ("password", "nope")] [])
               "S1" db_1)) = 401.
Proof.
  assert (H : ~ In "bob@x.io" (emails new_db)) by (simpl; tauto).
  assert (Ne : "bob@x.io" <> "") by discriminate.
  assert (Np : "nope" <> "") by discriminate.
  assert (Sn : short (list_byte_of_string "nope")) by (unfold short; simpl; lia).
  split; [exact (conj H (conj Ne (conj short_pw1 (conj Np Sn))))|].
  exact (proj1 (proj2
    (@route_register_then_login toy_bcrypt toy_bcrypt_spec "bob@x.io" "pw1"
       "nope" [x01] "S1" new_db H Ne short_pw1)) Np Sn).
Defined.

(** Bob logs out over HTTP; his cookie is worth nothing afterwards. *)
Lemma logout_then_profile_witness :
  (NoDup (ids db_3) /\ NoDup (session_ids db_3)
   /\ App.get "session_id" [("session_id", "S1")] = Some "S1"
   /\ find_user_by (by_session_id "S1") db_3 = Ok bob_in)
  /\ App.profile (App.mkRequest [] [("session_id", "S1")])
       (snd (App.log_out (App.mkRequest [] [("session_id", "S1")]) db_3))
     = App.abort 403.
Proof.
  assert (NS : NoDup (session_ids db_3)) by (repeat constructor; simpl; tauto).
  split; [repeat split; auto using NoDup_ids_db_3|].
  exact (proj1 (proj2
    (logout_then_profile (App.mkRequest [] [("session_id", "S1")]) db_3 "S1"
       bob_in NoDup_ids_db_3 NS eq_refl eq_refl))).
Defined.

(** Bob's token posted with Eve's email: answered 200, and it is Bob's
    password that changes; posted with a new password of 73 bytes, with
    bcrypt from release 5.0.0 on: answered 403, and nothing changes. *)
Lemma update_password_route_witness :
  (NoDup (ids db_4)
   /\ find_user_by (by_reset_token "R1") db_4
      = Ok (mkUser 1 "bob@x.io" (toy_hashpw (encode "pw1") [x01]) (Some "S1")
                   (Some "R1")))
  /\ @App.update_password toy_bcrypt
       (App.mkRequest [("email", "eve@x.io"); ("reset_token", "R1");
                       ("new_password", "pw2")] [])
       [x03] db_4
     = (App.jsonify 200 [("email", "eve@x.io"); ("message", "Password updated")]
                    None, db_5)
  /\ @App.update_password toy_bcrypt
       (App.mkRequest [("email", "eve@x.io"); ("reset_token", "R1");
                       ("new_password", pw_73b)] [])
       [x03] db_4
     = (App.abort 403, db_4).
Proof.
  split; [split; [apply NoDup_ids_db_4|reflexivity]|]. split.
  - exact (proj1 (proj1
      (@update_password_route toy_bcrypt
         (App.mkRequest [("email", "eve@x.io"); ("reset_token", "R1");
                         ("new_password", "pw2")] [])
         [x03] db_4 "eve@x.io" "R1" "pw2" NoDup_ids_db_4 eq_refl eq_refl
         eq_refl)
      _ eq_refl) _ eq_refl).
  - exact (proj1 (proj2 (proj1
      (@update_password_route toy_bcrypt
         (App.mkRequest [("email", "eve@x.io"); ("reset_token", "R1");
                         ("new_password", pw_73b)] [])
         [x03] db_4 "eve@x.io" "R1" pw_73b NoDup_ids_db_4 eq_refl eq_refl
         eq_refl)
      _ eq_refl)) eq_refl).
Defined.

(** The script against a fresh server. *)
Lemma main_passes_witness :
  (wf new_db /\ ~ In Main.EMAIL (emails new_db)
   /\ ~ In (Main.uuid_login sample_draws) (session_ids new_db)
   /\ ~ In (Main.uuid_reset sample_draws) (reset_tokens new_db))
  /\ exists db' h,
       @Main.main toy_bcrypt sample_draws new_db = Some (tt, db')
       /\ @_hash_password toy_bcrypt Main.NEW_PASSWD
            (Main.salt_update sample_draws) = Ok h
       /\ find_user_by (by_email Main.EMAIL) db'
          = Ok (mkUser (next_id new_db) Main.EMAIL h
                       (Some (Main.uuid_last sample_draws)) None).
Proof.
  assert (H : forall s : string, ~ In s (@nil string)) by (intros s []).
  split; [exact (conj wf_new (conj (H _) (conj (H _) (H _))))|].
  exact (@main_passes toy_bcrypt toy_bcrypt_spec sample_draws new_db wf_new
           (H _) (H _) (H _)).
Defined.
